(** * The BAP Python SDK session engine: a shallow embedding

    This development embeds the protocol session engine of the Browser
    Agent Protocol Python SDK (package [browseragentprotocol]) and
    studies its request/response correlation, its notification routing,
    its connection lifecycle, its error mapper and the reconnection
    policy of its WebSocket transport.

    Source files embedded here:
    - [types/protocol.py]  (error codes, type guards, [create_request]);
    - [errors.py]          (the [BAPError] hierarchy, [create_error_from_code]);
    - [client.py]          ([BAPClient]: [_request], [_handle_message],
                            [_handle_response], [_handle_notification],
                            [connect], [close]);
    - [context.py]         ([bap_client]);
    - [transport.py]       ([WebSocketTransport]: [_receive_loop],
                            [_attempt_reconnect]).

    Python values are dynamically typed: whatever [json.loads] returns
    flows unchecked through the client, so the embedding keeps JSON values
    as an inductive type and writes out where an attribute access or a
    membership test raises. *)

From Stdlib Require Import ZArith QArith Ascii String.
From stdpp Require Import gmap strings list fin_maps.

Open Scope Z_scope.

(* ===================================================================== *)
(** * Python values as parsed by [json.loads] *)
(* ===================================================================== *)

Module Py.

(** A Python [float]: not-a-number, an infinity, or the finite value
    [m * 2^e].  [json.loads] produces these for numbers written with a
    fraction or an exponent (and for the literals NaN and Infinity). *)
Inductive pyfloat :=
  | FNan
  | FInf (negative : bool)
  | FFin (m e : Z).

(** The values [json.loads] can return.  A JSON object is a [dict] with
    string keys; it is kept as an association list in insertion order and
    read through [dict_get], which returns the first binding of a key. *)
#[warnings="-register-all"]
Inductive json :=
  | JNull
  | JBool (b : bool)
  | JInt (z : Z)
  | JFloat (f : pyfloat)
  | JStr (s : string)
  | JList (l : list json)
  | JObj (d : list (string * json)).

Abbreviation dict := (list (string * json)).

(** The exceptions other than [BAPError] that the embedded code can
    raise: Python built-ins, pydantic's [ValidationError] and the bare
    [Exception(msg)] of the transport. *)
Inductive builtin_exn :=
  | TypeError
  | AttributeError
  | ValueError
  | IndexError
  | ValidationError
  | PlainException (msg : string).

(** The integer a float is numerically equal to, if any. *)
Definition float_int_value (f : pyfloat) : option Z :=
  match f with
  | FNan | FInf _ => None
  | FFin m e =>
      if 0 <=? e then Some (m * 2 ^ e)
      else if m mod 2 ^ (- e) =? 0 then Some (m / 2 ^ (- e))
      else None
  end.

(** [py_num v] is the integer that [v] compares equal to under Python's
    [==] (and hashes like), if there is one: [True == 1], [1.0 == 1]. *)
Definition py_num (v : json) : option Z :=
  match v with
  | JInt z => Some z
  | JBool b => Some (if b then 1 else 0)
  | JFloat f => float_int_value f
  | _ => None
  end.

(** Lists and dicts are unhashable: using one as a dict key, or testing
    it for membership in a dict, raises [TypeError]. *)
Definition hashable (v : json) : bool :=
  match v with
  | JList _ | JObj _ => false
  | _ => true
  end.

(** Truth value of a Python object ([if x], [x or y]). *)
Definition truthy (v : json) : bool :=
  match v with
  | JNull => false
  | JBool b => b
  | JInt z => negb (z =? 0)
  | JFloat (FFin m _) => negb (m =? 0)
  | JFloat _ => true
  | JStr s => negb (String.eqb s "")
  | JList l => match l with [] => false | _ => true end
  | JObj d => match d with [] => false | _ => true end
  end.

(** [x or y] *)
Definition py_or (x y : json) : json := if truthy x then x else y.

(** [x is not None] *)
Definition is_not_None (v : json) : bool :=
  match v with JNull => false | _ => true end.

(** [isinstance(v, int)]: [bool] is a subclass of [int]. *)
Definition isinstance_int (v : json) : bool :=
  match v with JInt _ | JBool _ => true | _ => false end.

Definition isinstance_str (v : json) : bool :=
  match v with JStr _ => true | _ => false end.

Definition isinstance_dict (v : json) : bool :=
  match v with JObj _ => true | _ => false end.

Fixpoint dict_get (k : string) (d : dict) : option json :=
  match d with
  | [] => None
  | (k', v) :: d' => if String.eqb k k' then Some v else dict_get k d'
  end.

Definition dict_has (k : string) (d : dict) : bool :=
  match dict_get k d with Some _ => true | None => false end.

(** [sub in s] for two strings. *)
Definition str_contains (sub s : string) : bool :=
  match String.index 0 sub s with Some _ => true | None => false end.

(** [s.split(sep)] for a one-character separator: never the empty list. *)
Fixpoint str_split (sep : ascii) (s : string) : list string :=
  match s with
  | EmptyString => [EmptyString]
  | String c s' =>
      if Ascii.eqb c sep then EmptyString :: str_split sep s'
      else match str_split sep s' with
           | [] => [String c EmptyString]
           | h :: t => String c h :: t
           end
  end.

End Py.
Export Py.

(* ===================================================================== *)
(** * Results of fallible computations *)
(* ===================================================================== *)

(** [Res E A]: a computation that returns an [A] or raises an [E]. *)
Inductive Res (E A : Type) :=
  | Ok (a : A)
  | Raise (e : E).
Arguments Ok {E A} a.
Arguments Raise {E A} e.

Definition res_bind {E A B} (m : Res E A) (k : A → Res E B) : Res E B :=
  match m with
  | Ok a => k a
  | Raise e => Raise e
  end.

Notation "'let*' x := m 'in' k" := (res_bind m (fun x => k))
  (at level 10, x name, m at level 100, k at level 200,
   format "'let*'  x  :=  m  'in' '//' k").

Definition is_Ok {E A} (m : Res E A) : bool :=
  match m with Ok _ => true | Raise _ => false end.

(** [o.get(k, dflt)]: only a [dict] has the attribute. *)
Definition py_get (o : json) (k : string) (dflt : json) : Res builtin_exn json :=
  match o with
  | JObj d => Ok (default dflt (dict_get k d))
  | _ => Raise AttributeError
  end.

(** [k in o] for a string [k]: key test on a dict, substring test on a
    string, element test on a list, [TypeError] on anything else. *)
Definition py_contains (k : string) (o : json) : Res builtin_exn bool :=
  match o with
  | JObj d => Ok (dict_has k d)
  | JStr s => Ok (str_contains k s)
  | JList l =>
      Ok (existsb (λ x, match x with JStr s => String.eqb s k | _ => false end) l)
  | _ => Raise TypeError
  end.

(* ===================================================================== *)
(** * [types/protocol.py] *)
(* ===================================================================== *)

Definition BAP_VERSION : string := "0.2.0".

Module ErrorCodes.
Definition ParseError : Z := -32700.
Definition InvalidRequest : Z := -32600.
Definition MethodNotFound : Z := -32601.
Definition InvalidParams : Z := -32602.
Definition InternalError : Z := -32603.
Definition ServerError : Z := -32000.
Definition NotInitialized : Z := -32001.
Definition AlreadyInitialized : Z := -32002.
Definition BrowserNotLaunched : Z := -32010.
Definition PageNotFound : Z := -32011.
Definition ElementNotFound : Z := -32012.
Definition ElementNotVisible : Z := -32013.
Definition ElementNotEnabled : Z := -32014.
Definition NavigationFailed : Z := -32015.
Definition Timeout : Z := -32016.
Definition TargetClosed : Z := -32017.
Definition ExecutionContextDestroyed : Z := -32018.
Definition SelectorAmbiguous : Z := -32020.
Definition ActionFailed : Z := -32021.
Definition InterceptedRequest : Z := -32022.
Definition ContextNotFound : Z := -32023.
Definition ResourceLimitExceeded : Z := -32024.
Definition ApprovalDenied : Z := -32030.
Definition ApprovalTimeout : Z := -32031.
Definition ApprovalRequired : Z := -32032.
Definition FrameNotFound : Z := -32040.
Definition DomainNotAllowed : Z := -32041.
Definition StreamNotFound : Z := -32050.
Definition StreamCancelled : Z := -32051.
End ErrorCodes.

(** [is_request], [is_response], [is_notification]: key presence only. *)
Definition is_request (message : dict) : bool :=
  dict_has "id" message && dict_has "method" message.

Definition is_response (message : dict) : bool :=
  dict_has "id" message && negb (dict_has "method" message).

Definition is_notification (message : dict) : bool :=
  negb (dict_has "id" message) && dict_has "method" message.

(** [is_error_response(response)] *)
Definition is_error_response (response : json) : Res builtin_exn bool :=
  let* has := py_contains "error" response in
  if negb has then Ok false else
  let* error := py_get response "error" JNull in
  if negb (isinstance_dict error) then Ok false else
  let* code := py_get error "code" JNull in
  let* message := py_get error "message" JNull in
  Ok (isinstance_int code && isinstance_str message).

(** [create_request(id, method, params)]; [params = None] omits the key. *)
Definition create_request (id : json) (method : string) (params : option json) : json :=
  JObj ([("jsonrpc", JStr "2.0"); ("id", id); ("method", JStr method)]
        ++ match params with Some p => [("params", p)] | None => [] end).

(* ===================================================================== *)
(** * [errors.py]: the typed error hierarchy and the error mapper *)
(* ===================================================================== *)

(** The class of an error instance. *)
Inductive ErrorClass :=
  | K_BAPError
  | K_BAPConnectionError
  | K_BAPParseError
  | K_BAPInvalidRequestError
  | K_BAPMethodNotFoundError
  | K_BAPInvalidParamsError
  | K_BAPNotInitializedError
  | K_BAPAlreadyInitializedError
  | K_BAPBrowserNotLaunchedError
  | K_BAPPageNotFoundError
  | K_BAPElementNotFoundError
  | K_BAPElementNotVisibleError
  | K_BAPElementNotEnabledError
  | K_BAPSelectorAmbiguousError
  | K_BAPNavigationError
  | K_BAPTimeoutError
  | K_BAPActionError
  | K_BAPTargetClosedError
  | K_BAPExecutionContextDestroyedError
  | K_BAPContextNotFoundError
  | K_BAPResourceLimitExceededError
  | K_BAPApprovalDeniedError
  | K_BAPApprovalTimeoutError
  | K_BAPApprovalRequiredError
  | K_BAPFrameNotFoundError
  | K_BAPDomainNotAllowedError
  | K_BAPStreamNotFoundError
  | K_BAPStreamCancelledError.

(** The attributes [BAPError.__init__] stores.  Nothing checks the type
    annotations at run time, so each attribute holds whatever value the
    caller passed; Python's [None] is [JNull]. *)
Record BAPError := mkBAPError {
  cls : ErrorClass;
  code : json;
  message : json;
  retryable : json;
  retry_after_ms : json;
  details : json
}.

(** An error value that respects the annotations of [BAPError.__init__]:
    [code: int], [message: str], [retryable: bool],
    [retry_after_ms: int | None], [details: dict | None]. *)
Definition well_typed (e : BAPError) : Prop :=
  (∃ z, code e = JInt z) ∧
  (∃ s, message e = JStr s) ∧
  (∃ b, retryable e = JBool b) ∧
  (retry_after_ms e = JNull ∨ ∃ z, retry_after_ms e = JInt z) ∧
  (details e = JNull ∨ ∃ d, details e = JObj d).

(** [BAPError.to_dict] *)
Definition to_dict (self : BAPError) : json :=
  JObj [("code", code self);
        ("message", message self);
        ("data",
         JObj ([("retryable", retryable self)]
               ++ (if is_not_None (retry_after_ms self)
                   then [("retryAfterMs", retry_after_ms self)] else [])
               ++ (if is_not_None (details self)
                   then [("details", details self)] else [])))].

Section ErrorMapper.

(** [str(v)] as an f-string interpolates it: a builtin of the
    interpreter, taken as given. *)
Context (py_format : json → string).

Local Notation "a +++ b" := (String.append a b)
  (at level 60, right associativity).

(** [BAPError(code, message, retryable=..., retry_after_ms=..., details=...)] *)
Definition BAPError_new (code message retryable retry_after_ms details : json)
  : BAPError :=
  mkBAPError K_BAPError code message retryable retry_after_ms details.

Definition subclass (k : ErrorClass) (c : Z) (message retryable retry_after_ms details : json)
  : BAPError :=
  mkBAPError k (JInt c) message retryable retry_after_ms details.

Definition BAPConnectionError (message details : json) : BAPError :=
  subclass K_BAPConnectionError ErrorCodes.ServerError message
    (JBool true) (JInt 1000) details.

Definition BAPParseError (message : json) : BAPError :=
  subclass K_BAPParseError ErrorCodes.ParseError message (JBool false) JNull JNull.

Definition BAPInvalidRequestError (message details : json) : BAPError :=
  subclass K_BAPInvalidRequestError ErrorCodes.InvalidRequest message
    (JBool false) JNull details.

Definition BAPMethodNotFoundError (method : json) : BAPError :=
  subclass K_BAPMethodNotFoundError ErrorCodes.MethodNotFound
    (JStr ("Method not found: " +++ py_format method)) (JBool false) JNull JNull.

Definition BAPInvalidParamsError (message details : json) : BAPError :=
  subclass K_BAPInvalidParamsError ErrorCodes.InvalidParams message
    (JBool false) JNull details.

Definition BAPNotInitializedError : BAPError :=
  subclass K_BAPNotInitializedError ErrorCodes.NotInitialized
    (JStr "Client not initialized. Call connect() first.") (JBool false) JNull JNull.

Definition BAPAlreadyInitializedError : BAPError :=
  subclass K_BAPAlreadyInitializedError ErrorCodes.AlreadyInitialized
    (JStr "Client already initialized") (JBool false) JNull JNull.

Definition BAPBrowserNotLaunchedError : BAPError :=
  subclass K_BAPBrowserNotLaunchedError ErrorCodes.BrowserNotLaunched
    (JStr "Browser not launched. Call launch() first.") (JBool false) JNull JNull.

Definition BAPPageNotFoundError (page_id : json) : BAPError :=
  subclass K_BAPPageNotFoundError ErrorCodes.PageNotFound
    (JStr ("Page not found: " +++ py_format page_id)) (JBool false) JNull
    (JObj [("pageId", page_id)]).

Definition BAPElementNotFoundError (selector retryable retry_after_ms : json) : BAPError :=
  subclass K_BAPElementNotFoundError ErrorCodes.ElementNotFound
    (JStr "Element not found") retryable retry_after_ms
    (JObj [("selector", selector)]).

Definition BAPElementNotVisibleError (selector : json) : BAPError :=
  subclass K_BAPElementNotVisibleError ErrorCodes.ElementNotVisible
    (JStr "Element not visible") (JBool true) (JInt 500)
    (JObj [("selector", selector)]).

Definition BAPElementNotEnabledError (selector : json) : BAPError :=
  subclass K_BAPElementNotEnabledError ErrorCodes.ElementNotEnabled
    (JStr "Element not enabled") (JBool true) (JInt 500)
    (JObj [("selector", selector)]).

Definition BAPSelectorAmbiguousError (selector count : json) : BAPError :=
  subclass K_BAPSelectorAmbiguousError ErrorCodes.SelectorAmbiguous
    (JStr ("Selector matched " +++ py_format count +++ " elements, expected 1"))
    (JBool false) JNull
    (JObj [("selector", selector); ("count", count)]).

(** [details] starts empty, gains ["url"] and ["status"] when they are
    truthy, and is passed on as [details or None]. *)
Definition BAPNavigationError (message url status retryable : json) : BAPError :=
  let details :=
    (if truthy url then [("url", url)] else [])
    ++ (if truthy status then [("status", status)] else []) in
  subclass K_BAPNavigationError ErrorCodes.NavigationFailed message retryable
    (JInt 1000) (py_or (JObj details) JNull).

Definition BAPTimeoutError (message timeout : json) : BAPError :=
  subclass K_BAPTimeoutError ErrorCodes.Timeout message (JBool true) (JInt 0)
    (if truthy timeout then JObj [("timeout", timeout)] else JNull).

Definition BAPActionError (action message selector retryable : json) : BAPError :=
  subclass K_BAPActionError ErrorCodes.ActionFailed
    (JStr (py_format action +++ " failed: " +++ py_format message))
    retryable JNull
    (JObj ([("action", action)]
           ++ (if truthy selector then [("selector", selector)] else []))).

Definition BAPTargetClosedError (target : json) : BAPError :=
  subclass K_BAPTargetClosedError ErrorCodes.TargetClosed
    (JStr (py_format target +++ " was closed")) (JBool false) JNull JNull.

Definition BAPExecutionContextDestroyedError : BAPError :=
  subclass K_BAPExecutionContextDestroyedError ErrorCodes.ExecutionContextDestroyed
    (JStr "Execution context was destroyed") (JBool true) (JInt 100) JNull.

Definition BAPContextNotFoundError (context_id : json) : BAPError :=
  subclass K_BAPContextNotFoundError ErrorCodes.ContextNotFound
    (JStr ("Context not found: " +++ py_format context_id)) (JBool false) JNull
    (JObj [("contextId", context_id)]).

Definition BAPResourceLimitExceededError (resource limit current : json) : BAPError :=
  subclass K_BAPResourceLimitExceededError ErrorCodes.ResourceLimitExceeded
    (JStr ("Resource limit exceeded: " +++ py_format resource +++ " (max: "
           +++ py_format limit +++ ", current: " +++ py_format current +++ ")"))
    (JBool false) JNull
    (JObj [("resource", resource); ("limit", limit); ("current", current)]).

Definition BAPApprovalDeniedError (reason rule : json) : BAPError :=
  subclass K_BAPApprovalDeniedError ErrorCodes.ApprovalDenied
    (if truthy reason then JStr ("Approval denied: " +++ py_format reason)
     else JStr "Approval denied")
    (JBool false) JNull
    (if truthy (py_or rule reason)
     then JObj [("rule", rule); ("reason", reason)] else JNull).

Definition BAPApprovalTimeoutError (timeout : json) : BAPError :=
  subclass K_BAPApprovalTimeoutError ErrorCodes.ApprovalTimeout
    (JStr ("Approval timed out after " +++ py_format timeout +++ "ms"))
    (JBool true) JNull
    (JObj [("timeout", timeout)]).

Definition BAPApprovalRequiredError (request_id rule : json) : BAPError :=
  subclass K_BAPApprovalRequiredError ErrorCodes.ApprovalRequired
    (JStr ("Approval required for action (rule: " +++ py_format rule +++ ")"))
    (JBool false) JNull
    (JObj [("requestId", request_id); ("rule", rule)]).

Definition BAPFrameNotFoundError (identifier : json) : BAPError :=
  subclass K_BAPFrameNotFoundError ErrorCodes.FrameNotFound
    (if truthy identifier then JStr ("Frame not found: " +++ py_format identifier)
     else JStr "Frame not found")
    (JBool false) JNull
    (if truthy identifier then JObj [("identifier", identifier)] else JNull).

Definition BAPDomainNotAllowedError (domain : json) : BAPError :=
  subclass K_BAPDomainNotAllowedError ErrorCodes.DomainNotAllowed
    (JStr ("Domain not allowed: " +++ py_format domain)) (JBool false) JNull
    (JObj [("domain", domain)]).

Definition BAPStreamNotFoundError (stream_id : json) : BAPError :=
  subclass K_BAPStreamNotFoundError ErrorCodes.StreamNotFound
    (JStr ("Stream not found: " +++ py_format stream_id)) (JBool false) JNull
    (JObj [("streamId", stream_id)]).

Definition BAPStreamCancelledError (stream_id : json) : BAPError :=
  subclass K_BAPStreamCancelledError ErrorCodes.StreamCancelled
    (JStr ("Stream was cancelled: " +++ py_format stream_id)) (JBool false) JNull
    (JObj [("streamId", stream_id)]).

(** [details.get(k, dflt) if details else other] *)
Definition details_get (details : json) (k : string) (dflt other : json)
  : Res builtin_exn json :=
  if truthy details then py_get details k dflt else Ok other.

(** The codes that are keys of the [error_classes] table. *)
Definition error_classes : list Z :=
  [ErrorCodes.ParseError; ErrorCodes.InvalidRequest; ErrorCodes.MethodNotFound;
   ErrorCodes.InvalidParams; ErrorCodes.NotInitialized;
   ErrorCodes.AlreadyInitialized; ErrorCodes.BrowserNotLaunched;
   ErrorCodes.Timeout; ErrorCodes.TargetClosed;
   ErrorCodes.ExecutionContextDestroyed; ErrorCodes.ApprovalDenied;
   ErrorCodes.FrameNotFound; ErrorCodes.StreamNotFound;
   ErrorCodes.StreamCancelled].

(** [code == c] for an integer constant [c]. *)
Definition code_is (code : json) (c : Z) : bool :=
  match py_num code with Some z => z =? c | None => false end.

(** [code in error_classes]: hashes [code] first. *)
Definition code_in_table (code : json) : Res builtin_exn bool :=
  if hashable code then Ok (existsb (code_is code) error_classes)
  else Raise TypeError.

(** The first [if]/[elif] chain, entered when the code is a key of
    [error_classes]; [None] when no branch of the chain returns (the two
    table entries without a branch: InvalidRequest and InvalidParams). *)
Definition special_constructors (code message details : json)
  : option (Res builtin_exn BAPError) :=
  if code_is code ErrorCodes.ParseError then
    Some (Ok (BAPParseError message))
  else if code_is code ErrorCodes.MethodNotFound then
    Some (Ok (BAPMethodNotFoundError message))
  else if code_is code ErrorCodes.NotInitialized then
    Some (Ok BAPNotInitializedError)
  else if code_is code ErrorCodes.AlreadyInitialized then
    Some (Ok BAPAlreadyInitializedError)
  else if code_is code ErrorCodes.BrowserNotLaunched then
    Some (Ok BAPBrowserNotLaunchedError)
  else if code_is code ErrorCodes.Timeout then
    Some (let* timeout := details_get details "timeout" JNull JNull in
          Ok (BAPTimeoutError message timeout))
  else if code_is code ErrorCodes.TargetClosed then
    Some (let* target := details_get details "target" (JStr "target") (JStr "target") in
          Ok (BAPTargetClosedError target))
  else if code_is code ErrorCodes.ExecutionContextDestroyed then
    Some (Ok BAPExecutionContextDestroyedError)
  else if code_is code ErrorCodes.ApprovalDenied then
    Some (let* reason := details_get details "reason" JNull JNull in
          let* rule := details_get details "rule" JNull JNull in
          Ok (BAPApprovalDeniedError reason rule))
  else if code_is code ErrorCodes.FrameNotFound then
    Some (let* identifier := details_get details "identifier" JNull JNull in
          Ok (BAPFrameNotFoundError identifier))
  else if code_is code ErrorCodes.StreamNotFound then
    Some (let* stream_id :=
            details_get details "streamId" (JStr "unknown") (JStr "unknown") in
          Ok (BAPStreamNotFoundError stream_id))
  else if code_is code ErrorCodes.StreamCancelled then
    Some (let* stream_id :=
            details_get details "streamId" (JStr "unknown") (JStr "unknown") in
          Ok (BAPStreamCancelledError stream_id))
  else None.

(** The second chain ("Handle other specific cases") and the default. *)
Definition other_constructors (code message retryable retry_after_ms details : json)
  : Res builtin_exn BAPError :=
  if code_is code ErrorCodes.PageNotFound then
    let* page_id := details_get details "pageId" (JStr "unknown") (JStr "unknown") in
    Ok (BAPPageNotFoundError page_id)
  else if code_is code ErrorCodes.ElementNotFound then
    let* selector := details_get details "selector" JNull JNull in
    Ok (BAPElementNotFoundError selector retryable (py_or retry_after_ms (JInt 500)))
  else if code_is code ErrorCodes.ElementNotVisible then
    let* selector := details_get details "selector" JNull JNull in
    Ok (BAPElementNotVisibleError selector)
  else if code_is code ErrorCodes.ElementNotEnabled then
    let* selector := details_get details "selector" JNull JNull in
    Ok (BAPElementNotEnabledError selector)
  else if code_is code ErrorCodes.SelectorAmbiguous then
    let* selector := details_get details "selector" JNull JNull in
    let* count := details_get details "count" (JInt 0) (JInt 0) in
    Ok (BAPSelectorAmbiguousError selector count)
  else if code_is code ErrorCodes.NavigationFailed then
    let* url := details_get details "url" JNull JNull in
    let* status := details_get details "status" JNull JNull in
    Ok (BAPNavigationError message url status retryable)
  else if code_is code ErrorCodes.ActionFailed then
    let* action := details_get details "action" (JStr "action") (JStr "action") in
    let* selector := details_get details "selector" JNull JNull in
    Ok (BAPActionError action message selector retryable)
  else if code_is code ErrorCodes.ContextNotFound then
    let* context_id :=
      details_get details "contextId" (JStr "unknown") (JStr "unknown") in
    Ok (BAPContextNotFoundError context_id)
  else if code_is code ErrorCodes.ResourceLimitExceeded then
    let* resource :=
      details_get details "resource" (JStr "resource") (JStr "resource") in
    let* limit := details_get details "limit" (JInt 0) (JInt 0) in
    let* current := details_get details "current" (JInt 0) (JInt 0) in
    Ok (BAPResourceLimitExceededError resource limit current)
  else if code_is code ErrorCodes.ApprovalTimeout then
    let* timeout := details_get details "timeout" (JInt 60000) (JInt 60000) in
    Ok (BAPApprovalTimeoutError timeout)
  else if code_is code ErrorCodes.ApprovalRequired then
    let* request_id :=
      details_get details "requestId" (JStr "unknown") (JStr "unknown") in
    let* rule := details_get details "rule" (JStr "unknown") (JStr "unknown") in
    Ok (BAPApprovalRequiredError request_id rule)
  else if code_is code ErrorCodes.DomainNotAllowed then
    let* domain := details_get details "domain" (JStr "unknown") (JStr "unknown") in
    Ok (BAPDomainNotAllowedError domain)
  else
    Ok (BAPError_new code message retryable retry_after_ms details).

(** [create_error_from_code(code, message, retryable=..., retry_after_ms=...,
    details=...)] *)
Definition create_error_from_code
    (code message retryable retry_after_ms details : json)
  : Res builtin_exn BAPError :=
  let* in_table := code_in_table code in
  match (if in_table then special_constructors code message details else None) with
  | Some r => r
  | None => other_constructors code message retryable retry_after_ms details
  end.

(** [BAPError.from_dict(error_dict)] *)
Definition from_dict (error_dict : json) : Res builtin_exn BAPError :=
  let* code := py_get error_dict "code" (JInt ErrorCodes.InternalError) in
  let* message := py_get error_dict "message" (JStr "Unknown error") in
  let* data := py_get error_dict "data" (JObj []) in
  let* retryable := py_get data "retryable" (JBool false) in
  let* retry_after_ms := py_get data "retryAfterMs" JNull in
  let* details := py_get data "details" JNull in
  create_error_from_code code message retryable retry_after_ms details.

End ErrorMapper.

(* ===================================================================== *)
(** * [transport.py]: the WebSocket transport *)
(* ===================================================================== *)

Module Transport.

(** [self._ws]: [None], an open socket, or a socket whose [closed] is true. *)
Inductive WsState := WsNone | WsOpen | WsClosed.

(** Constructor arguments and the callbacks the owner installed (only
    whether a callback is set matters to the transport). *)
Record Config := mkConfig {
  url : string;
  max_reconnect_attempts : Z;
  reconnect_delay : Q;
  auto_reconnect : bool;
  on_message : bool;
  on_close : bool;
  on_error : bool;
  on_reconnecting : bool;
  on_reconnected : bool
}.

Record WebSocketTransport := mkTransport {
  config : Config;
  _session : bool;          (* [self._session is not None] *)
  _ws : WsState;
  _reconnect_attempts : Z;
  _is_closing : bool;
  _is_reconnecting : bool;
  _receive_task : bool      (* [self._receive_task is not None] *)
}.

(** [WebSocketTransport(url, max_reconnect_attempts=5, reconnect_delay=1.0,
    auto_reconnect=False)]: no callback is set yet. *)
Definition __init__ (url : string) (max_reconnect_attempts : Z)
    (reconnect_delay : Q) (auto_reconnect : bool) : WebSocketTransport :=
  mkTransport
    (mkConfig url max_reconnect_attempts reconnect_delay auto_reconnect
       false false false false false)
    false WsNone 0 false false false.

Definition set_callbacks (m c e r d : bool) (t : WebSocketTransport)
  : WebSocketTransport :=
  mkTransport
    (mkConfig (url (config t)) (max_reconnect_attempts (config t))
       (reconnect_delay (config t)) (auto_reconnect (config t)) m c e r d)
    (_session t) (_ws t) (_reconnect_attempts t) (_is_closing t)
    (_is_reconnecting t) (_receive_task t).

(** What the transport does that its owner or the network can observe. *)
Inductive Event :=
  | CallOnMessage (data : string)
  | CallOnClose
  | CallOnError
  | CallOnReconnecting (attempt max_attempts : Z)
  | CallOnReconnected
  | Sleep (delay : Q)
  | WsConnect (accepted : bool).

Definition emit_if (b : bool) (e : Event) : list Event := if b then [e] else [].

(** [is_connected] *)
Definition is_connected (t : WebSocketTransport) : bool :=
  match _ws t with WsOpen => true | _ => false end.

(** [connect()]; [accepted] tells whether [ws_connect] succeeds. *)
Definition connect (accepted : bool) (t : WebSocketTransport)
  : WebSocketTransport * list Event * Res builtin_exn unit :=
  let t1 := mkTransport (config t) true (_ws t) (_reconnect_attempts t)
              false (_is_reconnecting t) (_receive_task t) in
  if accepted then
    (mkTransport (config t) true WsOpen 0 false (_is_reconnecting t) true,
     [WsConnect true], Ok ())
  else
    (t1, WsConnect false :: emit_if (on_error (config t)) CallOnError,
     Raise (PlainException "connection refused")).

(** [send(message)]; [written] tells whether [send_str] succeeds. *)
Definition send (written : bool) (t : WebSocketTransport) : Res builtin_exn unit :=
  match _ws t with
  | WsOpen => if written then Ok () else Raise (PlainException "send failed")
  | _ => Raise (PlainException "WebSocket not connected")
  end.

(** [close()] *)
Definition close (t : WebSocketTransport) : WebSocketTransport :=
  mkTransport (config t) false WsNone 0 true (_is_reconnecting t) false.


Definition set_is_reconnecting (b : bool) (t : WebSocketTransport)
  : WebSocketTransport :=
  mkTransport (config t) (_session t) (_ws t) (_reconnect_attempts t)
    (_is_closing t) b (_receive_task t).


(** The frames the socket iterator yields. *)
Inductive WSMsg :=
  | TEXT (data : string)
  | ERROR
  | CLOSED
  | OTHER.

(** The [async for] of [_receive_loop] with its [except] clauses.
    [raises data] tells whether the [on_message] callback raises on a
    frame.  The iteration ends with the list of frames. *)
Fixpoint receive_frames (raises : string → bool) (t : WebSocketTransport)
    (frames : list WSMsg) : list Event :=
  match frames with
  | [] => []
  | TEXT data :: rest =>
      if on_message (config t) then
        CallOnMessage data ::
          (if raises data then emit_if (on_error (config t)) CallOnError
           else receive_frames raises t rest)
      else receive_frames raises t rest
  | ERROR :: _ => emit_if (on_error (config t)) CallOnError
  | CLOSED :: _ => []
  | OTHER :: rest => receive_frames raises t rest
  end.



(** Enough fuel for any run of the loop: one unit per remaining attempt. *)
Definition reconnect_fuel (t : WebSocketTransport) : nat :=
  Z.to_nat (max_reconnect_attempts (config t) - _reconnect_attempts t).



End Transport.

(* ===================================================================== *)
(** * [client.py]: the session engine *)
(* ===================================================================== *)

(** What a coroutine of the client can raise. *)
Inductive exn :=
  | Builtin (e : builtin_exn)
  | BAPErr (e : BAPError).

Definition lift_builtin {A} (r : Res builtin_exn A) : Res exn A :=
  match r with Ok a => Ok a | Raise e => Raise (Builtin e) end.

(** The pydantic models the client validates inbound payloads against. *)
Inductive Model :=
  | StreamChunkParams
  | StreamEndParams
  | ApprovalRequiredParams
  | InitializeResult.

(** Functions of the interpreter and of pydantic that the client calls:
    [str(v)] inside an f-string, [int(s)] on a string (None stands for
    [ValueError]), and [M.model_validate(v)] (the validated instance is
    kept as the JSON value of its fields; None stands for
    [ValidationError]). *)
Record Runtime := mkRuntime {
  py_format : json → string;
  py_int : string → option Z;
  model_validate : Model → json → option json
}.

(** The argument a callback is invoked with. *)
Inductive Payload :=
  | PModel (m : Model) (v : json)   (* a validated model instance *)
  | PParams (params : json)         (* the raw [params] of an event *)
  | PNoArgs                         (* close handlers take no argument *)
  | PException (e : builtin_exn).   (* error handlers take the exception *)

(** A registered callback: an identity, and whether it raises on a given
    argument.  Callbacks are taken not to reach back into the client. *)
Record Handler := mkHandler {
  h_id : nat;
  h_raises : Payload → bool
}.

(** An [asyncio.Future] created by [_request]. *)
Inductive FutureState :=
  | FPending
  | FResult (v : json)
  | FException (e : BAPError).

Definition future_done (s : FutureState) : bool :=
  match s with FPending => false | _ => true end.

Inductive TimerState := Armed | Cancelled | Fired.

(** A [TimerHandle] from [loop.call_later(self._timeout, on_timeout)]: the
    closure [on_timeout] captures [request_id] and [method]. *)
Record Timer := mkTimer {
  t_request_id : Z;
  t_method : string;
  t_state : TimerState
}.

(** The frame of one [_request] coroutine: its locals, and whether
    [transport.send] went through. *)
Record Call := mkCall {
  c_id : Z;
  c_method : string;
  c_future : nat;
  c_timer : nat;
  c_sent : bool
}.

Inductive LogRecord :=
  | LogError (text : string)
  | LogWarning (text : string) (arg : json).

(** The attributes of a [BAPClient] instance. *)
Record BAPClient := mkClient {
  _name : string;
  _version : string;
  _events : list string;
  _transport : Transport.WebSocketTransport;
  _request_id : Z;
  _pending_requests : gmap Z (nat * nat);
  _initialized : bool;
  _server_capabilities : json;
  _active_page : option string;
  _event_handlers : gmap string (list Handler);
  _stream_chunk_handlers : list Handler;
  _stream_end_handlers : list Handler;
  _approval_handlers : list Handler
}.

(** The client together with the event-loop objects it created and what
    it did to the outside: futures and timers are referred to by their
    position in the heap lists; [issued] holds one frame per [_request]
    invocation, [settled] one entry per [set_result]/[set_exception] call,
    [sent] the messages written to the transport, [invoked] the callback
    invocations, [logged] the records given to the logger. *)
Record World := mkWorld {
  client : BAPClient;
  futures : list FutureState;
  timers : list Timer;
  issued : list Call;
  settled : list nat;
  sent : list json;
  invoked : list (nat * Payload);
  logged : list LogRecord
}.

Definition with_client (f : BAPClient → BAPClient) (w : World) : World :=
  mkWorld (f (client w)) (futures w) (timers w) (issued w) (settled w)
    (sent w) (invoked w) (logged w).

Definition set_request_id (n : Z) (c : BAPClient) : BAPClient :=
  mkClient (_name c) (_version c) (_events c) (_transport c) n
    (_pending_requests c) (_initialized c) (_server_capabilities c)
    (_active_page c) (_event_handlers c) (_stream_chunk_handlers c)
    (_stream_end_handlers c) (_approval_handlers c).

Definition set_pending (p : gmap Z (nat * nat)) (c : BAPClient) : BAPClient :=
  mkClient (_name c) (_version c) (_events c) (_transport c) (_request_id c)
    p (_initialized c) (_server_capabilities c)
    (_active_page c) (_event_handlers c) (_stream_chunk_handlers c)
    (_stream_end_handlers c) (_approval_handlers c).

Definition set_transport (t : Transport.WebSocketTransport) (c : BAPClient)
  : BAPClient :=
  mkClient (_name c) (_version c) (_events c) t (_request_id c)
    (_pending_requests c) (_initialized c) (_server_capabilities c)
    (_active_page c) (_event_handlers c) (_stream_chunk_handlers c)
    (_stream_end_handlers c) (_approval_handlers c).

Definition set_session (initialized : bool) (capabilities : json) (c : BAPClient)
  : BAPClient :=
  mkClient (_name c) (_version c) (_events c) (_transport c) (_request_id c)
    (_pending_requests c) initialized capabilities
    (_active_page c) (_event_handlers c) (_stream_chunk_handlers c)
    (_stream_end_handlers c) (_approval_handlers c).

Definition set_active_page (p : option string) (c : BAPClient) : BAPClient :=
  mkClient (_name c) (_version c) (_events c) (_transport c) (_request_id c)
    (_pending_requests c) (_initialized c) (_server_capabilities c)
    p (_event_handlers c) (_stream_chunk_handlers c)
    (_stream_end_handlers c) (_approval_handlers c).

Definition set_handlers (ev : gmap string (list Handler))
    (chunk fin approval : list Handler) (c : BAPClient) : BAPClient :=
  mkClient (_name c) (_version c) (_events c) (_transport c) (_request_id c)
    (_pending_requests c) (_initialized c) (_server_capabilities c)
    (_active_page c) ev chunk fin approval.

Definition set_futures (fs : list FutureState) (w : World) : World :=
  mkWorld (client w) fs (timers w) (issued w) (settled w)
    (sent w) (invoked w) (logged w).

Definition set_timers (ts : list Timer) (w : World) : World :=
  mkWorld (client w) (futures w) ts (issued w) (settled w)
    (sent w) (invoked w) (logged w).

Definition add_issued (c : Call) (w : World) : World :=
  mkWorld (client w) (futures w) (timers w) (issued w ++ [c]) (settled w)
    (sent w) (invoked w) (logged w).

Definition add_sent (m : json) (w : World) : World :=
  mkWorld (client w) (futures w) (timers w) (issued w) (settled w)
    (sent w ++ [m]) (invoked w) (logged w).

Definition add_invoked (h : nat) (arg : Payload) (w : World) : World :=
  mkWorld (client w) (futures w) (timers w) (issued w) (settled w)
    (sent w) (invoked w ++ [(h, arg)]) (logged w).

Definition log (r : LogRecord) (w : World) : World :=
  mkWorld (client w) (futures w) (timers w) (issued w) (settled w)
    (sent w) (invoked w) (logged w ++ [r]).

(** [future.set_result(v)] / [future.set_exception(e)]. *)
Definition settle (f : nat) (s : FutureState) (w : World) : World :=
  mkWorld (client w) (<[f := s]> (futures w)) (timers w) (issued w)
    (settled w ++ [f]) (sent w) (invoked w) (logged w).

(** [future.done()]: a handle outside the heap is never met. *)
Definition is_done (f : nat) (w : World) : bool :=
  match futures w !! f with Some s => future_done s | None => false end.

(** [timer.cancel()]: no effect on a timer that already ran. *)
Definition cancel (t : nat) (w : World) : World :=
  match timers w !! t with
  | Some tm =>
      match t_state tm with
      | Armed =>
          set_timers
            (<[t := mkTimer (t_request_id tm) (t_method tm) Cancelled]> (timers w)) w
      | _ => w
      end
  | None => w
  end.

(** [self._pending_requests.pop(request_id)] *)
Definition pop_pending (request_id : Z) (w : World) : World :=
  with_client (λ c, set_pending (delete request_id (_pending_requests c)) c) w.

(** [BAPClient(url, name=..., version=..., events=...)].  The default of
    [events] replaces a missing or empty list. *)
Definition BAPClient__init__ (url name version : string) (events : list string)
  : World :=
  let handlers : gmap string (list Handler) :=
    list_to_map [("page", []); ("console", []); ("network", []);
                 ("dialog", []); ("download", []); ("close", []);
                 ("error", [])] in
  mkWorld
    (mkClient name version
       (match events with
        | [] => ["page"; "console"; "network"; "dialog"]
        | _ => events
        end)
       (Transport.set_callbacks true true true false false
          (Transport.__init__ url 5 1 false))
       0 ∅ false JNull None handlers [] [] [])
    [] [] [] [] [] [] [].

Section Client.

Context (rt : Runtime).

Local Notation "a +++ b" := (String.append a b)
  (at level 60, right associativity).

(** [await self._transport.send(json.dumps(message))]; [written] tells
    whether the socket write succeeds. *)
Definition transport_send (written : bool) (m : json) (w : World)
  : World * Res exn unit :=
  match Transport.send written (_transport (client w)) with
  | Ok _ => (add_sent m w, Ok ())
  | Raise e => (w, Raise (Builtin e))
  end.

(** [BAPError(ErrorCodes.Timeout, f"Request timeout: {method}", retryable=True)] *)
Definition timeout_error (method : string) : BAPError :=
  BAPError_new (JInt ErrorCodes.Timeout) (JStr ("Request timeout: " +++ method))
    (JBool true) JNull JNull.

(** [BAPError(ErrorCodes.ServerError, "Client closed")] *)
Definition closed_error : BAPError :=
  BAPError_new (JInt ErrorCodes.ServerError) (JStr "Client closed")
    (JBool false) JNull JNull.

(** The closure [on_timeout] of [_request]. *)
Definition on_timeout (request_id : Z) (method : string) (w : World) : World :=
  match _pending_requests (client w) !! request_id with
  | Some (f, _) =>
      let w1 := pop_pending request_id w in
      if is_done f w1 then w1
      else settle f (FException (timeout_error method)) w1
  | None => w
  end.

(** The [except Exception] clause of [_request] ("Clean up on error"). *)
Definition cleanup (request_id : Z) (w : World) : World :=
  match _pending_requests (client w) !! request_id with
  | Some (_, t) => cancel t (pop_pending request_id w)
  | None => w
  end.

(** [_request(method, params)] up to the point where it awaits the
    future: a send that fails raises to the caller after the clean-up. *)
Definition _request (method : string) (params : json) (written : bool) (w : World)
  : World * Res exn Call :=
  let request_id := _request_id (client w) + 1 in
  let w1 := with_client (set_request_id request_id) w in
  let request := create_request (JInt request_id) method (Some params) in
  let future := length (futures w1) in
  let w2 := set_futures (futures w1 ++ [FPending]) w1 in
  let timer := length (timers w2) in
  let w3 := set_timers (timers w2 ++ [mkTimer request_id method Armed]) w2 in
  let w4 :=
    with_client
      (λ c, set_pending (<[request_id := (future, timer)]> (_pending_requests c)) c)
      w3 in
  match transport_send written request w4 with
  | (w5, Ok _) =>
      let call := mkCall request_id method future timer true in
      (add_issued call w5, Ok call)
  | (w5, Raise e) =>
      let call := mkCall request_id method future timer false in
      (add_issued call (cleanup request_id w5), Raise e)
  end.

(** [return await future] and the clean-up when the future raises; [None]
    while the future is not done. *)
Definition _request_await (call : Call) (w : World) : option (World * Res exn json) :=
  match futures w !! c_future call with
  | Some (FResult v) => Some (w, Ok v)
  | Some (FException e) => Some (cleanup (c_id call) w, Raise (BAPErr e))
  | _ => None
  end.

(** [_notify(method)] with [params=None]. *)
Definition _notify (method : string) (written : bool) (w : World)
  : World * Res exn unit :=
  transport_send written
    (JObj [("jsonrpc", JStr "2.0"); ("method", JStr method)]) w.

(** The entry a response id selects in [self._pending_requests]: the keys
    are the integers [_request] stored, so an id selects the entry of the
    integer it is equal to. *)
Definition lookup_pending (request_id : json) (w : World) : option (Z * (nat * nat)) :=
  match py_num request_id with
  | Some k =>
      match _pending_requests (client w) !! k with
      | Some entry => Some (k, entry)
      | None => None
      end
  | None => None
  end.

(** [_handle_response(data)] *)
Definition _handle_response (data : json) (w : World) : World * Res builtin_exn unit :=
  match py_get data "id" JNull with
  | Raise e => (w, Raise e)
  | Ok request_id =>
      if negb (hashable request_id) then (w, Raise TypeError)
      else
        match lookup_pending request_id w with
        | None =>
            (log (LogWarning "Received response for unknown request" request_id) w,
             Ok ())
        | Some (k, (future, timer)) =>
            let w1 := cancel timer (pop_pending k w) in
            if is_done future w1 then (w1, Ok ())
            else
              match is_error_response data with
              | Raise e => (w1, Raise e)
              | Ok true =>
                  match (let* error := py_get data "error" JNull in
                         from_dict (py_format rt) error) with
                  | Raise e => (w1, Raise e)
                  | Ok error => (settle future (FException error) w1, Ok ())
                  end
              | Ok false =>
                  match py_get data "result" JNull with
                  | Raise e => (w1, Raise e)
                  | Ok v => (settle future (FResult v) w1, Ok ())
                  end
              end
        end
  end.

(** [for handler in handlers: try: handler(arg) except Exception: log]. *)
Fixpoint call_handlers (label : string) (hs : list Handler) (arg : Payload)
    (w : World) : World :=
  match hs with
  | [] => w
  | h :: rest =>
      let w1 := add_invoked (h_id h) arg w in
      call_handlers label rest arg
        (if h_raises h arg then log (LogError label) w1 else w1)
  end.

(** The branch of [_handle_notification] for one reserved method. *)
Definition dispatch_model (m : Model) (label : string) (hs : list Handler)
    (params : json) (w : World) : World * Res builtin_exn unit :=
  match model_validate rt m params with
  | None => (w, Raise ValidationError)
  | Some v => (call_handlers label hs (PModel m v) w, Ok ())
  end.

(** [method == s] for a string literal [s]. *)
Definition method_is (method : json) (s : string) : bool :=
  match method with JStr m => String.eqb m s | _ => false end.

(** [_handle_notification(data)] *)
Definition _handle_notification (data : json) (w : World)
  : World * Res builtin_exn unit :=
  match py_get data "method" (JStr "") with
  | Raise e => (w, Raise e)
  | Ok method =>
  match py_get data "params" (JObj []) with
  | Raise e => (w, Raise e)
  | Ok params =>
      if method_is method "stream/chunk" then
        dispatch_model StreamChunkParams "Stream chunk handler error"
          (_stream_chunk_handlers (client w)) params w
      else if method_is method "stream/end" then
        dispatch_model StreamEndParams "Stream end handler error"
          (_stream_end_handlers (client w)) params w
      else if method_is method "approval/required" then
        dispatch_model ApprovalRequiredParams "Approval handler error"
          (_approval_handlers (client w)) params w
      else
        match method with
        | JStr m =>
            match (if String.prefix "event/" m
                   then str_split "/" m !! 1%nat else Some m) with
            | None => (w, Raise IndexError)
            | Some event_type =>
                match _event_handlers (client w) !! event_type with
                | Some hs =>
                    (call_handlers "Event handler error" hs (PParams params) w,
                     Ok ())
                | None => (w, Ok ())
                end
            end
        | _ => (w, Raise AttributeError)
        end
  end
  end.

(** [_handle_message(message)], given what [json.loads(message)] returns
    ([None] when it raises [JSONDecodeError]). *)
Definition _handle_message (parsed : option json) (w : World)
  : World * Res builtin_exn unit :=
  match parsed with
  | None => (log (LogError "Failed to parse message") w, Ok ())
  | Some data =>
      match py_contains "id" data with
      | Raise e => (w, Raise e)
      | Ok true => _handle_response data w
      | Ok false =>
          match py_contains "method" data with
          | Raise e => (w, Raise e)
          | Ok true => _handle_notification data w
          | Ok false => (w, Ok ())
          end
      end
  end.

(** [_handle_close()] and [_handle_error(error)]. *)
Definition _handle_close (w : World) : World :=
  call_handlers "Close handler error"
    (default [] (_event_handlers (client w) !! "close")) PNoArgs w.

Definition _handle_error (error : builtin_exn) (w : World) : World :=
  call_handlers "Error handler error"
    (default [] (_event_handlers (client w) !! "error")) (PException error) w.

(** One text frame as the receive loop of the client's transport treats
    it: an exception escaping [on_message] goes to [on_error], ends the
    loop, and the [finally] clause calls [on_close]. *)
Definition deliver (parsed : option json) (w : World) : World :=
  match _handle_message parsed w with
  | (w1, Ok _) => w1
  | (w1, Raise e) => _handle_close (_handle_error e w1)
  end.

(** [close()] up to the [await] of the shutdown request. *)
Definition close_begin (written : bool) (w : World) : World * option (Res exn Call) :=
  if _initialized (client w) then
    let '(w1, r) :=
      _request "shutdown"
        (JObj [("saveState", JBool false); ("closePages", JBool true)]) written w in
    (w1, Some r)
  else (w, None).

(** The loop of [close()] over [list(self._pending_requests.items())]. *)
Definition reject_pending (entries : list (Z * (nat * nat))) (w : World) : World :=
  foldl
    (λ w entry,
       let w1 := cancel (snd (snd entry)) w in
       if is_done (fst (snd entry)) w1 then w1
       else settle (fst (snd entry)) (FException closed_error) w1)
    w entries.

(** [close()] from [await self._transport.close()] on: the shutdown
    request, if any, has returned or raised (the exception is dropped). *)
Definition close_tail (w : World) : World :=
  let w1 :=
    with_client (λ c, set_transport (Transport.close (_transport c)) c) w in
  let w2 := with_client (set_session false JNull) w1 in
  let w3 := reject_pending (map_to_list (_pending_requests (client w2))) w2 in
  with_client (set_pending ∅) w3.

(** [connect()] up to the [await] of the initialize request. *)
Definition connect_begin (accepted written : bool) (w : World) : World * Res exn Call :=
  match Transport.connect accepted (_transport (client w)) with
  | (t, _, Ok _) =>
      _request "initialize"
        (JObj [("protocolVersion", JStr BAP_VERSION);
               ("clientInfo",
                JObj [("name", JStr (_name (client w)));
                      ("version", JStr (_version (client w)))]);
               ("capabilities",
                JObj [("events", JList (JStr <$> _events (client w)));
                      ("streaming", JBool false);
                      ("compression", JBool false)])])
        written (with_client (set_transport t) w)
  | (t, _, Raise e) =>
      let w1 := with_client (set_transport t) w in
      ((if Transport.on_error (Transport.config t) then _handle_error e w1 else w1),
       Raise (Builtin e))
  end.

(** [[int(x) for x in version.split(".")]] *)
Fixpoint parse_ints (parts : list string) : Res builtin_exn (list Z) :=
  match parts with
  | [] => Ok []
  | x :: rest =>
      match py_int rt x with
      | None => Raise ValueError
      | Some n => let* ns := parse_ints rest in Ok (n :: ns)
      end
  end.

Definition index {A} (l : list A) (i : nat) : Res builtin_exn A :=
  match l !! i with Some x => Ok x | None => Raise IndexError end.

Definition version_mismatch (server_version : string) : BAPError :=
  BAPError_new (JInt ErrorCodes.InvalidRequest)
    (JStr ("Protocol version mismatch: client=" +++ BAP_VERSION +++ ", server="
           +++ server_version +++ ". Major version must match."))
    (JBool false) JNull JNull.

(** The version check of [connect()]: [Ok true] when the server's minor
    version is older (a warning is logged), [Raise] on a mismatch or on
    anything the parsing raises. *)
Definition check_version (result : json) : Res exn bool :=
  match py_get result "protocolVersion" (JStr "0.0.0") with
  | Raise e => Raise (Builtin e)
  | Ok (JStr server_version) =>
      match (let* server_parts := parse_ints (str_split "." server_version) in
             let* client_parts := parse_ints (str_split "." BAP_VERSION) in
             let* s0 := index server_parts 0 in
             let* c0 := index client_parts 0 in
             Ok (server_parts, client_parts, s0, c0)) with
      | Raise e => Raise (Builtin e)
      | Ok (server_parts, client_parts, s0, c0) =>
          if negb (s0 =? c0) then Raise (BAPErr (version_mismatch server_version))
          else
            lift_builtin
              (let* s1 := index server_parts 1 in
               let* c1 := index client_parts 1 in
               Ok (s1 <? c1))
      end
  | Ok _ => Raise (Builtin AttributeError)
  end.

(** [connect()] from the result of the initialize request to the [await]
    of the subscribe request. *)
Definition connect_resume (result : json) (notified written : bool) (w : World)
  : World * Res exn (option Call) :=
  match check_version result with
  | Raise e => (w, Raise e)
  | Ok older =>
      let w1 :=
        if older
        then log (LogWarning "Server protocol version is older than client" result) w
        else w in
      match py_get result "capabilities" JNull with
      | Raise e => (w1, Raise (Builtin e))
      | Ok capabilities =>
          let w2 := with_client (set_session true capabilities) w1 in
          match _notify "notifications/initialized" notified w2 with
          | (w3, Raise e) => (w3, Raise e)
          | (w3, Ok _) =>
              match _events (client w3) with
              | [] => (w3, Ok None)
              | events =>
                  match _request "events/subscribe"
                          (JObj [("events", JList (JStr <$> events))]) written w3 with
                  | (w4, Raise e) => (w4, Raise e)
                  | (w4, Ok call) => (w4, Ok (Some call))
                  end
              end
          end
      end
  end.

(** [return InitializeResult.model_validate(result)] *)
Definition connect_finish (result : json) : Res builtin_exn json :=
  match model_validate rt InitializeResult result with
  | Some v => Ok v
  | None => Raise ValidationError
  end.

(** [context.py], [bap_client]: [try: await client.connect() ... finally:
    await client.close()], seen from the result of the initialize
    request.  When [connect()] raises, [close()] runs before the
    exception leaves the context manager. *)
Definition bap_client_resume (result : json) (notified written closing : bool)
    (w : World) : World * Res exn (option Call) :=
  match connect_resume result notified written w with
  | (w1, Raise e) => (close_tail (fst (close_begin closing w1)), Raise e)
  | ok => ok
  end.

(** [on(event, handler)], [on_stream_chunk(handler)], [on_stream_end],
    [on_approval_required]. *)
Definition on (event : string) (h : Handler) (w : World) : World :=
  with_client
    (λ c, set_handlers
            (<[event := default [] (_event_handlers c !! event) ++ [h]]>
               (_event_handlers c))
            (_stream_chunk_handlers c) (_stream_end_handlers c)
            (_approval_handlers c) c) w.

Definition on_stream_chunk (h : Handler) (w : World) : World :=
  with_client
    (λ c, set_handlers (_event_handlers c) (_stream_chunk_handlers c ++ [h])
            (_stream_end_handlers c) (_approval_handlers c) c) w.

Definition on_stream_end (h : Handler) (w : World) : World :=
  with_client
    (λ c, set_handlers (_event_handlers c) (_stream_chunk_handlers c)
            (_stream_end_handlers c ++ [h]) (_approval_handlers c) c) w.

Definition on_approval_required (h : Handler) (w : World) : World :=
  with_client
    (λ c, set_handlers (_event_handlers c) (_stream_chunk_handlers c)
            (_stream_end_handlers c) (_approval_handlers c ++ [h]) c) w.

(** The last statement of [activate_page(page_id)], once its request has
    returned. *)
Definition activate_page_done (page_id : string) (w : World) : World :=
  with_client (set_active_page (Some page_id)) w.

(** What can happen to a client, one atomic piece of code at a time: the
    event loop interleaves these pieces in any order. *)
Inductive Event :=
  | EvRequest (method : string) (params : json) (written : bool)
  | EvFrame (parsed : option json)
  | EvTimer (t : nat)
  | EvAwait (k : nat)
  | EvCloseBegin (written : bool)
  | EvCloseTail
  | EvConnectBegin (accepted written : bool)
  | EvConnectResume (k : nat) (notified written : bool)
  | EvActivated (page_id : string)
  | EvOn (event : string) (h : Handler)
  | EvOnStreamChunk (h : Handler)
  | EvOnStreamEnd (h : Handler)
  | EvOnApprovalRequired (h : Handler).

(** The event loop runs the callback of a timer that is still armed. *)
Definition fire (t : nat) (w : World) : World :=
  match timers w !! t with
  | Some tm =>
      match t_state tm with
      | Armed =>
          on_timeout (t_request_id tm) (t_method tm)
            (set_timers
               (<[t := mkTimer (t_request_id tm) (t_method tm) Fired]> (timers w)) w)
      | _ => w
      end
  | None => w
  end.

Definition step (e : Event) (w : World) : World :=
  match e with
  | EvRequest method params written => fst (_request method params written w)
  | EvFrame parsed => deliver parsed w
  | EvTimer t => fire t w
  | EvAwait k =>
      match issued w !! k with
      | Some call =>
          match _request_await call w with
          | Some (w1, _) => w1
          | None => w
          end
      | None => w
      end
  | EvCloseBegin written => fst (close_begin written w)
  | EvCloseTail => close_tail w
  | EvConnectBegin accepted written => fst (connect_begin accepted written w)
  | EvConnectResume k notified written =>
      match issued w !! k with
      | Some call =>
          match _request_await call w with
          | Some (w1, Ok result) => fst (connect_resume result notified written w1)
          | Some (w1, Raise _) => w1
          | None => w
          end
      | None => w
      end
  | EvActivated page_id => activate_page_done page_id w
  | EvOn event h => on event h w
  | EvOnStreamChunk h => on_stream_chunk h w
  | EvOnStreamEnd h => on_stream_end h w
  | EvOnApprovalRequired h => on_approval_required h w
  end.

Definition run (evs : list Event) (w : World) : World := foldl (λ w e, step e w) w evs.

(** The worlds a client can reach from its construction. *)
Definition reachable (w : World) : Prop :=
  ∃ url name version events evs,
    w = run evs (BAPClient__init__ url name version events).

End Client.

(* ===================================================================== *)
(** * An example runtime, to run the model on concrete inputs *)
(* ===================================================================== *)

Module Example.

(** Agrees with [str()] on strings; any other value is rendered by a
    placeholder (no statement below depends on the text of a message
    that interpolates a non-string). *)
Definition format (v : json) : string :=
  match v with JStr s => s | _ => "<value>" end.

Definition digit_of (c : ascii) : option Z :=
  let n := nat_of_ascii c in
  if ((48 <=? n) && (n <=? 57))%nat then Some (Z.of_nat n - 48) else None.

Fixpoint digits_value (acc : Z) (s : string) : option Z :=
  match s with
  | EmptyString => Some acc
  | String c s' =>
      match digit_of c with
      | Some d => digits_value (10 * acc + d) s'
      | None => None
      end
  end.

(** [int(s)] on a non-empty string of ASCII digits; anything else is
    refused. *)
Definition int (s : string) : option Z :=
  match s with
  | EmptyString => None
  | _ => digits_value 0 s
  end.

Definition has_str (k : string) (d : dict) : bool :=
  match dict_get k d with Some (JStr _) => true | _ => false end.

Definition has_int (k : string) (d : dict) : bool :=
  match dict_get k d with Some (JInt _) => true | _ => false end.

Definition has_obj (k : string) (d : dict) : bool :=
  match dict_get k d with Some (JObj _) => true | _ => false end.

(** Accepts a payload when every required field of the model is present
    under its alias with exactly the declared type, and keeps the payload
    as the validated instance. *)
Definition validate (m : Model) (v : json) : option json :=
  match v with
  | JObj d =>
      if match m with
         | StreamChunkParams =>
             has_str "streamId" d && has_int "index" d && has_str "data" d
             && has_int "offset" d && has_int "size" d
         | StreamEndParams =>
             has_str "streamId" d && has_int "totalChunks" d
             && has_int "totalSize" d
         | ApprovalRequiredParams =>
             has_str "requestId" d && has_obj "originalRequest" d
             && has_str "rule" d && has_obj "context" d && has_int "expiresAt" d
         | InitializeResult =>
             has_str "protocolVersion" d && has_obj "serverInfo" d
             && has_obj "capabilities" d
         end
      then Some v else None
  | _ => None
  end.

Definition runtime : Runtime := mkRuntime format int validate.

(** A freshly constructed client with the default events. *)
Definition fresh : World :=
  BAPClient__init__ "ws://localhost:9222" "bap-client-python" "0.2.0" [].

End Example.

(* ===================================================================== *)
(** * Vocabulary of the statements *)
(* ===================================================================== *)

(** [from_dict(e.to_dict())] *)
Definition roundtrip (fmt : json → string) (e : BAPError) : Res builtin_exn BAPError :=
  from_dict fmt (to_dict e).

(** The codes for which [create_error_from_code] calls a dedicated
    constructor (every branch of its two chains). *)
Definition dedicated_codes : list Z :=
  [ErrorCodes.ParseError; ErrorCodes.MethodNotFound; ErrorCodes.NotInitialized;
   ErrorCodes.AlreadyInitialized; ErrorCodes.BrowserNotLaunched;
   ErrorCodes.Timeout; ErrorCodes.TargetClosed;
   ErrorCodes.ExecutionContextDestroyed; ErrorCodes.ApprovalDenied;
   ErrorCodes.FrameNotFound; ErrorCodes.StreamNotFound;
   ErrorCodes.StreamCancelled; ErrorCodes.PageNotFound;
   ErrorCodes.ElementNotFound; ErrorCodes.ElementNotVisible;
   ErrorCodes.ElementNotEnabled; ErrorCodes.SelectorAmbiguous;
   ErrorCodes.NavigationFailed; ErrorCodes.ActionFailed;
   ErrorCodes.ContextNotFound; ErrorCodes.ResourceLimitExceeded;
   ErrorCodes.ApprovalTimeout; ErrorCodes.ApprovalRequired;
   ErrorCodes.DomainNotAllowed].

Definition has_dedicated_constructor (c : Z) : bool :=
  existsb (Z.eqb c) dedicated_codes.

(** The round trip reproduces code, retryable flag and details. *)
Definition roundtrip_preserves (fmt : json → string) (e : BAPError) : Prop :=
  ∃ e', roundtrip fmt e = Ok e'
        ∧ code e' = code e ∧ retryable e' = retryable e ∧ details e' = details e.


(** The connected transport of a caller that installed [on_close]. *)
Definition connected_transport (url : string) (n : Z) (d : Q)
    (auto m e r rd : bool) : Transport.WebSocketTransport :=
  (Transport.connect true
     (Transport.set_callbacks m true e r rd (Transport.__init__ url n d auto))).1.1.


(** A callback that never raises, one that always does, and two
    stream-chunk notifications: one without [params], one complete. *)
Definition quiet_handler (n : nat) : Handler := mkHandler n (λ _, false).

Definition bare_chunk_notification : dict :=
  [("jsonrpc", JStr "2.0"); ("method", JStr "stream/chunk")].



(** A response envelope with a result, and an initialize result that
    reports a given protocol version. *)
Definition result_response (id : Z) (result : json) : json :=
  JObj [("jsonrpc", JStr "2.0"); ("id", JInt id); ("result", result)].

Definition initialize_result (version : string) : json :=
  JObj [("protocolVersion", JStr version);
        ("serverInfo", JObj [("name", JStr "bap-server"); ("version", JStr "1.0.0")]);
        ("capabilities", JObj [])].

(** ** The bookkeeping invariant of the request dispatcher

    Stated over the six components it relates: the id counter, the
    pending table, the futures, the timers, the frames of the issued
    calls and the log of settlements.  Call number [k] (counted from 0)
    carries id [k + 1] and owns future [k] and timer [k]; an entry of
    the pending table stands for a call whose request was sent, whose
    future is not done and whose timer is armed; an armed timer belongs
    to a pending entry; a future appears in the settlement log at most
    once, and exactly when it is done. *)
Record InvC (n : Z) (P : gmap Z (nat * nat)) (fs : list FutureState)
    (ts : list Timer) (cs : list Call) (ss : list nat) : Prop := mkInvC {
  inv_request_id : n = Z.of_nat (length cs);
  inv_futures_len : length fs = length cs;
  inv_timers_len : length ts = length cs;
  inv_issued : ∀ k c, cs !! k = Some c →
    c_id c = Z.of_nat k + 1 ∧ c_future c = k ∧ c_timer c = k;
  inv_timers : ∀ k tm, ts !! k = Some tm →
    t_request_id tm = Z.of_nat k + 1
    ∧ ∃ c, cs !! k = Some c ∧ t_method tm = c_method c;
  inv_pending : ∀ rid f t, P !! rid = Some (f, t) →
    rid = Z.of_nat f + 1 ∧ t = f ∧ fs !! f = Some FPending
    ∧ (∃ tm, ts !! t = Some tm ∧ t_state tm = Armed)
    ∧ (∃ c, cs !! f = Some c ∧ c_sent c = true);
  inv_armed : ∀ k tm, ts !! k = Some tm → t_state tm = Armed →
    P !! (Z.of_nat k + 1) = Some (k, k);
  inv_settled_nodup : NoDup ss;
  inv_settled : ∀ f, f ∈ ss ↔ ∃ s, fs !! f = Some s ∧ future_done s = true;
  inv_unsent : ∀ k c, cs !! k = Some c → c_sent c = false →
    fs !! k = Some FPending
}.

Definition Inv (w : World) : Prop :=
  InvC (_request_id (client w)) (_pending_requests (client w))
    (futures w) (timers w) (issued w) (settled w).

(** Every call whose request was sent is done or still in the table. *)
Definition LiveC (P : gmap Z (nat * nat)) (fs : list FutureState)
    (cs : list Call) : Prop :=
  ∀ k c, cs !! k = Some c → c_sent c = true →
    (∃ s, fs !! k = Some s ∧ future_done s = true)
    ∨ P !! (Z.of_nat k + 1) = Some (k, k).

Definition Live (w : World) : Prop :=
  LiveC (_pending_requests (client w)) (futures w) (issued w).

(** An error envelope is accepted by the mapper when [from_dict] returns
    on its ["error"] member. *)
Definition accepted_by_mapper (rt : Runtime) (data : json) : bool :=
  match is_error_response data with
  | Ok true =>
      is_Ok (let* error := py_get data "error" JNull in
             from_dict (py_format rt) error)
  | _ => true
  end.

(** An event that is not an error envelope refused by the mapper. *)
Definition benign (rt : Runtime) (e : Event) : Prop :=
  match e with
  | EvFrame (Some data) => accepted_by_mapper rt data = true
  | _ => True
  end.

(** How often a future was settled. *)
Definition settle_count (f : nat) (w : World) : nat :=
  length (filter (λ x, x = f) (settled w)).

(** [w'] inherits the invariant, and the liveness bookkeeping, from [w]. *)
Definition keeps (w w' : World) : Prop :=
  Inv w → Inv w' ∧ (Live w → Live w').

(** [w'] is a later world than [w]: the futures that were done are
    still done, with the same result or error, and the frames of the
    calls issued so far are still there. *)
Definition extends (w w' : World) : Prop :=
  (∀ f s, futures w !! f = Some s → future_done s = true →
          futures w' !! f = Some s)
  ∧ ∃ l, issued w' = issued w ++ l.

(** The worlds reached without an error envelope that the mapper
    refuses. *)
Definition reachable_benign (rt : Runtime) (w : World) : Prop :=
  ∃ url name version events evs,
    Forall (benign rt) evs
    ∧ w = run rt evs (BAPClient__init__ url name version events).




Definition handshake_started : World :=
  run Example.runtime [EvConnectBegin true true] Example.fresh.

Definition session_events : list Event :=
  [EvConnectBegin true true;
   EvFrame (Some (result_response 1 (initialize_result "0.2.0")));
   EvConnectResume 0 true true;
   EvFrame (Some (result_response 2 (JObj [])));
   EvRequest "page/list" (JObj []) true].

Definition session_with_call : World :=
  run Example.runtime session_events Example.fresh.

(** An error envelope whose ["data"] member is [null]. *)
Definition error_response_null_data (id : Z) : json :=
  JObj [("jsonrpc", JStr "2.0"); ("id", JInt id);
        ("error", JObj [("code", JInt ErrorCodes.ServerError);
                        ("message", JStr "boom");
                        ("data", JNull)])].

(** A retryable parse error with details, and the error [close()] uses. *)
Definition retryable_parse_error : BAPError :=
  BAPError_new (JInt ErrorCodes.ParseError) (JStr "bad frame") (JBool true)
    JNull (JObj [("line", JInt 3)]).

(* ===================================================================== *)
(** * Further code of the same files *)
(* ===================================================================== *)

(** ** [types/protocol.py]: the other envelope builders *)

(** [create_success_response(id, result)] *)
Definition create_success_response (id result : json) : json :=
  JObj [("jsonrpc", JStr "2.0"); ("id", id); ("result", result)].

(** [create_error_response(id, code, message, data)]; [data = None]
    omits the key. *)
Definition create_error_response (id code message : json) (data : option json)
  : json :=
  JObj [("jsonrpc", JStr "2.0"); ("id", id);
        ("error",
         JObj ([("code", code); ("message", message)]
               ++ match data with Some d => [("data", d)] | None => [] end))].

(** [create_notification(method, params)]; [params = None] omits the key. *)
Definition create_notification (method : string) (params : option json) : json :=
  JObj ([("jsonrpc", JStr "2.0"); ("method", JStr method)]
        ++ match params with Some p => [("params", p)] | None => [] end).

(** ** [errors.py]: [BAPError.from_response] *)

(** A validated [JSONRPCErrorData] and [JSONRPCError] (pydantic models:
    the fields have their declared types). *)
Record JSONRPCErrorData := mkErrorData {
  d_retryable : bool;
  d_retry_after_ms : option Z;
  d_details : option dict
}.

Record JSONRPCError := mkJSONRPCError {
  e_code : Z;
  e_message : string;
  e_data : option JSONRPCErrorData
}.

Definition opt_int (o : option Z) : json :=
  match o with Some z => JInt z | None => JNull end.

Definition opt_dict (o : option dict) : json :=
  match o with Some d => JObj d | None => JNull end.

(** [BAPError.from_response(error)]: a model instance is truthy, so
    [if error.data:] asks whether [data] is set. *)
Definition from_response (fmt : json → string) (error : JSONRPCError)
  : Res builtin_exn BAPError :=
  match e_data error with
  | Some data =>
      create_error_from_code fmt (JInt (e_code error)) (JStr (e_message error))
        (JBool (d_retryable data)) (opt_int (d_retry_after_ms data))
        (opt_dict (d_details data))
  | None =>
      create_error_from_code fmt (JInt (e_code error)) (JStr (e_message error))
        (JBool false) JNull JNull
  end.

(** The same error as the dict a server puts on the wire, with the
    members that are [None] left out. *)
Definition error_wire (error : JSONRPCError) : json :=
  JObj ([("code", JInt (e_code error)); ("message", JStr (e_message error))]
        ++ match e_data error with
           | Some data =>
               [("data",
                 JObj ([("retryable", JBool (d_retryable data))]
                       ++ match d_retry_after_ms data with
                          | Some z => [("retryAfterMs", JInt z)]
                          | None => []
                          end
                       ++ match d_details data with
                          | Some d => [("details", JObj d)]
                          | None => []
                          end))]
           | None => []
           end).

(** A [details] value the mapper can read: falsy, or a dict. *)
Definition readable_details (v : json) : Prop :=
  truthy v = false ∨ ∃ d, v = JObj d.

(** The codes whose constructor fixes the retryable flag to [True], the
    codes whose constructor fixes it to [False], and the codes whose
    constructor takes it from the caller. *)
Definition always_retryable : list Z :=
  [ErrorCodes.Timeout; ErrorCodes.ExecutionContextDestroyed;
   ErrorCodes.ElementNotVisible; ErrorCodes.ElementNotEnabled;
   ErrorCodes.ApprovalTimeout].

Definition never_retryable : list Z :=
  [ErrorCodes.ParseError; ErrorCodes.MethodNotFound; ErrorCodes.NotInitialized;
   ErrorCodes.AlreadyInitialized; ErrorCodes.BrowserNotLaunched;
   ErrorCodes.TargetClosed; ErrorCodes.ApprovalDenied; ErrorCodes.FrameNotFound;
   ErrorCodes.StreamNotFound; ErrorCodes.StreamCancelled;
   ErrorCodes.PageNotFound; ErrorCodes.SelectorAmbiguous;
   ErrorCodes.ContextNotFound; ErrorCodes.ResourceLimitExceeded;
   ErrorCodes.ApprovalRequired; ErrorCodes.DomainNotAllowed].

Definition retryable_from_caller : list Z :=
  [ErrorCodes.ElementNotFound; ErrorCodes.NavigationFailed;
   ErrorCodes.ActionFailed].

(** ** [client.py]: the unsubscribe functions

    [on], [on_stream_chunk], [on_stream_end] and [on_approval_required]
    return [lambda: <list>.remove(handler)]. *)

(** [l.remove(h)]: drops the first element equal to [h] (callbacks are
    compared by identity); [None] stands for [ValueError]. *)
Fixpoint list_remove (h : Handler) (l : list Handler) : option (list Handler) :=
  match l with
  | [] => None
  | x :: rest =>
      if Nat.eqb (h_id x) (h_id h) then Some rest
      else match list_remove h rest with
           | Some rest' => Some (x :: rest')
           | None => None
           end
  end.

(** What calling an unsubscribe function can raise. *)
Inductive unsubscribe_exn :=
  | KeyError (key : string)   (* [self._event_handlers[event]] *)
  | RemoveValueError.         (* [list.remove(x): x not in list] *)

(** The function [on(event, handler)] returns: the list is looked up
    when the function is called. *)
Definition unsubscribe (event : string) (h : Handler) (w : World)
  : World * Res unsubscribe_exn unit :=
  match _event_handlers (client w) !! event with
  | None => (w, Raise (KeyError event))
  | Some l =>
      match list_remove h l with
      | None => (w, Raise RemoveValueError)
      | Some l' =>
          (with_client
             (λ c, set_handlers (<[event := l']> (_event_handlers c))
                     (_stream_chunk_handlers c) (_stream_end_handlers c)
                     (_approval_handlers c) c) w,
           Ok ())
      end
  end.

(** The function [on_stream_chunk(handler)] returns. *)
Definition unsubscribe_stream_chunk (h : Handler) (w : World)
  : World * Res unsubscribe_exn unit :=
  match list_remove h (_stream_chunk_handlers (client w)) with
  | None => (w, Raise RemoveValueError)
  | Some l' =>
      (with_client
         (λ c, set_handlers (_event_handlers c) l'
                 (_stream_end_handlers c) (_approval_handlers c) c) w,
       Ok ())
  end.

(** The callbacks registered for an event type, none when the type is
    not a key of [_event_handlers]. *)
Definition handlers_of (event : string) (w : World) : list Handler :=
  default [] (_event_handlers (client w) !! event).

(** The three methods [_handle_notification] reserves. *)
Definition reserved_methods : list string :=
  ["stream/chunk"; "stream/end"; "approval/required"].

(** The attributes fixed by the constructor: name, version, the event
    list, and the configuration of the transport (URL, reconnect
    settings, installed callbacks). *)
Definition same_configuration (c c' : BAPClient) : Prop :=
  _name c' = _name c ∧ _version c' = _version c ∧ _events c' = _events c
  ∧ Transport.config (_transport c') = Transport.config (_transport c).

(** ** [transport.py]: vocabulary *)

(** The payloads handed to [on_message], in order, and the payloads of
    the text frames of a list of frames. *)
Definition delivered (evs : list Transport.Event) : list string :=
  omap (λ e, match e with Transport.CallOnMessage s => Some s | _ => None end) evs.

Definition texts (frames : list Transport.WSMsg) : list string :=
  omap (λ m, match m with Transport.TEXT s => Some s | _ => None end) frames.

(** A frame that does not end the receive loop. *)
Definition keeps_receiving (raises : string → bool) (m : Transport.WSMsg) : bool :=
  match m with
  | Transport.TEXT s => negb (raises s)
  | Transport.ERROR | Transport.CLOSED => false
  | Transport.OTHER => true
  end.


(* ===================================================================== *)
(** * Properties *)
(* ===================================================================== *)

(** ** What the primitive updates leave alone *)

Lemma cancel_frame t w :
  client (cancel t w) = client w ∧ futures (cancel t w) = futures w
  ∧ issued (cancel t w) = issued w ∧ settled (cancel t w) = settled w
  ∧ sent (cancel t w) = sent w ∧ invoked (cancel t w) = invoked w
  ∧ logged (cancel t w) = logged w.
Proof.
  unfold cancel. destruct (timers w !! t) as [tm | ]; [ | done ].
  destruct (t_state tm); done.
Qed.

Lemma cancel_client t w : client (cancel t w) = client w.
Proof. apply cancel_frame. Qed.
Lemma cancel_futures t w : futures (cancel t w) = futures w.
Proof. apply cancel_frame. Qed.
Lemma cancel_issued t w : issued (cancel t w) = issued w.
Proof. apply cancel_frame. Qed.
Lemma cancel_settled t w : settled (cancel t w) = settled w.
Proof. apply cancel_frame. Qed.
Lemma cancel_sent t w : sent (cancel t w) = sent w.
Proof. apply cancel_frame. Qed.
Lemma cancel_invoked t w : invoked (cancel t w) = invoked w.
Proof. apply cancel_frame. Qed.
Lemma cancel_logged t w : logged (cancel t w) = logged w.
Proof. apply cancel_frame. Qed.

Lemma cancel_is_done t f w : is_done f (cancel t w) = is_done f w.
Proof. unfold is_done. by rewrite cancel_futures. Qed.

Create Rewrite HintDb frame.
#[export] Hint Rewrite cancel_client cancel_futures cancel_issued cancel_settled
  cancel_sent cancel_invoked cancel_logged cancel_is_done : frame.

Section ClientFacts.
Context (rt : Runtime).

Lemma call_handlers_spec label hs arg w :
  let w' := call_handlers label hs arg w in
  invoked w' = invoked w ++ ((λ h, (h_id h, arg)) <$> hs)
  ∧ logged w' = logged w ++ ((λ _, LogError label) <$> filter (λ h, h_raises h arg = true) hs)
  ∧ client w' = client w ∧ futures w' = futures w ∧ timers w' = timers w
  ∧ issued w' = issued w ∧ settled w' = settled w ∧ sent w' = sent w.
Proof.
  revert w. induction hs as [ | h hs IH]; intros w; simpl.
  - rewrite !app_nil_r. done.
  - destruct (IH (if h_raises h arg
                  then log (LogError label) (add_invoked (h_id h) arg w)
                  else add_invoked (h_id h) arg w))
      as (Hi & Hl & Hc & Hf & Ht & His & Hs & Hse).
    rewrite Hi, Hl, Hc, Hf, Ht, His, Hs, Hse.
    rewrite filter_cons.
    destruct (h_raises h arg) eqn:Hr; simpl; rewrite <- ?app_assoc; done.
Qed.

Lemma _handle_response_invoked data w :
  invoked (_handle_response rt data w).1 = invoked w.
Proof.
  unfold _handle_response.
  repeat match goal with
         | |- context [match ?x with _ => _ end] => destruct x; simpl
         end;
    autorewrite with frame; done.
Qed.

(** C10.  Classification of a parsed inbound message looks at key
    presence only: a message with an ["id"] key is handed to
    [_handle_response], also when it carries a ["method"] key (a request
    from the server), and no callback is invoked for it; a message with
    neither key is dropped and the world stays as it is. *)
Theorem message_classification (d : dict) (w : World) :
  (dict_has "id" d = true →
   _handle_message rt (Some (JObj d)) w = _handle_response rt (JObj d) w
   ∧ invoked (_handle_message rt (Some (JObj d)) w).1 = invoked w)
  ∧ (is_request d = true →
     _handle_message rt (Some (JObj d)) w = _handle_response rt (JObj d) w
     ∧ invoked (_handle_message rt (Some (JObj d)) w).1 = invoked w)
  ∧ (dict_has "id" d = false → dict_has "method" d = false →
     _handle_message rt (Some (JObj d)) w = (w, Ok ())).
Proof.
  assert (dict_has "id" d = true →
          _handle_message rt (Some (JObj d)) w = _handle_response rt (JObj d) w
          ∧ invoked (_handle_message rt (Some (JObj d)) w).1 = invoked w) as Hid.
  { intros Hid. simpl. rewrite Hid. split; [ done | ].
    apply _handle_response_invoked. }
  split; [ exact Hid | ]. split.
  - unfold is_request. intros [H _]%andb_true_iff. by apply Hid.
  - intros Hid' Hm. simpl. by rewrite Hid', Hm.
Qed.


End ClientFacts.




(** C10, witness: a request from the server (both keys) is treated as a
    response to an unknown id, and a message with neither key is dropped. *)
Lemma message_classification_witness :
  let request := [("jsonrpc", JStr "2.0"); ("id", JInt 9);
                  ("method", JStr "event/page")] in
  let empty := [("jsonrpc", JStr "2.0")] in
  is_request request = true
  ∧ invoked (_handle_message Example.runtime (Some (JObj request))
               (on "page" (quiet_handler 1) Example.fresh)).1 = []
  ∧ dict_has "id" empty = false ∧ dict_has "method" empty = false
  ∧ _handle_message Example.runtime (Some (JObj empty)) Example.fresh
    = (Example.fresh, Ok ()).
Proof.
  intros request empty.
  split; [ reflexivity | ].
  split; [ exact (proj2 (proj1 (proj2 (message_classification Example.runtime
                                          request
                                          (on "page" (quiet_handler 1) Example.fresh)))
                           eq_refl)) | ].
  split; [ reflexivity | ]. split; [ reflexivity | ].
  exact (proj2 (proj2 (message_classification Example.runtime empty Example.fresh))
           eq_refl eq_refl).
Defined.

Section RoundTrip.
Context (fmt : json → string).

Lemma roundtrip_unfold (e : BAPError) :
  roundtrip fmt e
  = create_error_from_code fmt (code e) (message e) (retryable e)
      (retry_after_ms e) (details e).
Proof.
  destruct e as [k c m r ra d]. unfold roundtrip, from_dict, to_dict. simpl.
  destruct ra; destruct d; reflexivity.
Qed.

Lemma special_in_table c m d r :
  special_constructors fmt c m d = Some r →
  existsb (code_is c) error_classes = true.
Proof.
  unfold special_constructors, error_classes. simpl.
  repeat match goal with
         | |- context [if code_is c ?x then _ else _] =>
             destruct (code_is c x) eqn:?
         end;
    intros; try discriminate;
    rewrite ?orb_true_r; reflexivity.
Qed.

Lemma create_error_from_code_hashable c m r ra d :
  hashable c = true →
  create_error_from_code fmt c m r ra d
  = match special_constructors fmt c m d with
    | Some res => res
    | None => other_constructors fmt c m r ra d
    end.
Proof.
  intros Hh. unfold create_error_from_code, code_in_table. rewrite Hh.
  unfold res_bind.
  destruct (special_constructors fmt c m d) eqn:Hs.
  - rewrite (special_in_table _ _ _ _ Hs). reflexivity.
  - destruct (existsb _ _); reflexivity.
Qed.

Lemma details_get_ok details k dflt other :
  details = JNull ∨ (∃ d, details = JObj d) →
  ∃ v, details_get details k dflt other = Ok v.
Proof.
  intros [-> | [d ->]]; unfold details_get; simpl; eauto.
  destruct d; simpl; eauto.
Qed.

Lemma generic_code z m r ra d :
  has_dedicated_constructor z = false →
  create_error_from_code fmt (JInt z) m r ra d
  = Ok (BAPError_new (JInt z) m r ra d).
Proof.
  intros H. rewrite create_error_from_code_hashable by reflexivity.
  unfold has_dedicated_constructor, dedicated_codes in H. simpl in H.
  repeat (apply orb_false_elim in H; destruct H as [? H]).
  cbv beta iota delta [special_constructors other_constructors code_is py_num].
  repeat match goal with
         | Hx : Z.eqb z ?c = false |- _ => rewrite Hx; clear Hx
         end.
  reflexivity.
Qed.

Ltac split_truthy :=
  cbn;
  repeat (first
            [ match goal with
              | H : truthy ?x = _ |- context [truthy ?x] => rewrite H
              end
            | match goal with
              | |- context [truthy ?x] => destruct (truthy x) eqn:?
              end ];
          cbn).

Lemma mapper_image_stable c m r ra d e :
  create_error_from_code fmt c m r ra d = Ok e →
  ∃ e', roundtrip fmt e = Ok e'
        ∧ cls e' = cls e ∧ code e' = code e ∧ retryable e' = retryable e
        ∧ retry_after_ms e' = retry_after_ms e ∧ details e' = details e.
Proof.
  intros H. pose proof H as H0.
  destruct (hashable c) eqn:Hh;
    [ | unfold create_error_from_code, code_in_table in H;
        rewrite Hh in H; discriminate ].
  rewrite create_error_from_code_hashable in H by done.
  rewrite roundtrip_unfold.
  unfold special_constructors, other_constructors in H.
  repeat match type of H with
         | context [if code_is c ?x then _ else _] =>
             destruct (code_is c x) eqn:?
         end;
    repeat match type of H with
           | context [details_get ?a ?k ?x ?y] =>
               destruct (details_get a k x y) eqn:?; cbn [res_bind] in H;
               [ | discriminate ]
           end;
    injection H as <-.
  all: try (rewrite create_error_from_code_hashable by reflexivity;
            unfold py_or; split_truthy;
            eexists; (split; [reflexivity | ]); split_truthy;
            repeat split; reflexivity).
  - rewrite create_error_from_code_hashable by reflexivity.
    unfold py_or. destruct (truthy ra) eqn:Hra; cbn; unfold py_or;
      rewrite ?Hra; cbn; eexists; repeat split; reflexivity.
  - exists (BAPError_new c m r ra d). cbn. repeat split. exact H0.
Qed.

Lemma roundtrip_code e :
  (∃ z, code e = JInt z) →
  (details e = JNull ∨ ∃ d, details e = JObj d) →
  ∃ e', roundtrip fmt e = Ok e' ∧ code e' = code e.
Proof.
  intros [z Hz] Hd. rewrite roundtrip_unfold, Hz.
  rewrite create_error_from_code_hashable by reflexivity.
  cbv beta iota delta [special_constructors other_constructors code_is py_num].
  repeat match goal with
         | |- context [if Z.eqb z ?x then _ else _] =>
             let E := fresh "E" in
             destruct (Z.eqb z x) eqn:E;
             [ apply Z.eqb_eq in E; subst z | ]
         end.
  all: repeat match goal with
         | |- context [details_get ?dd ?k ?x ?y] =>
             let v := fresh "v" in
             destruct (details_get_ok dd k x y Hd) as [v ->];
             cbn [res_bind]
         end.
  all: eexists; split; reflexivity.
Qed.
End RoundTrip.

(** C6 (amended).  Serialising an error with [to_dict] and mapping the
    result back with [from_dict] returns an error with the same code for
    every error that respects the annotations of [BAPError.__init__]; it
    returns the same error, field by field, when the code has no
    dedicated constructor in the mapper; and it reproduces class, code,
    retryable flag, retry delay and details of every error that the
    mapper itself produced. *)
Theorem roundtrip_amended (fmt : json → string) :
  (∀ e, well_typed e → ∃ e', roundtrip fmt e = Ok e' ∧ code e' = code e)
  ∧ (∀ e z, code e = JInt z → has_dedicated_constructor z = false →
       roundtrip fmt e
       = Ok (BAPError_new (code e) (message e) (retryable e)
               (retry_after_ms e) (details e))
       ∧ roundtrip_preserves fmt e)
  ∧ (∀ c m r ra d e,
       create_error_from_code fmt c m r ra d = Ok e →
       roundtrip_preserves fmt e
       ∧ ∃ e', roundtrip fmt e = Ok e' ∧ cls e' = cls e
               ∧ retry_after_ms e' = retry_after_ms e).
Proof.
  split; [ | split ].
  - intros e (Hc & _ & _ & _ & Hd). by apply roundtrip_code.
  - intros e z Hz Hg.
    assert (roundtrip fmt e
            = Ok (BAPError_new (code e) (message e) (retryable e)
                    (retry_after_ms e) (details e))) as H
      by (rewrite roundtrip_unfold, Hz; by apply generic_code).
    split; [ exact H | ]. eexists. split; [ exact H | done ].
  - intros c m r ra d e H.
    destruct (mapper_image_stable fmt c m r ra d e H)
      as (e' & He & Hcls & Hcode & Hr & Hra & Hd).
    split; exists e'; auto.
Qed.

(** C6, witness: the error [close()] settles pending calls with. *)
Lemma roundtrip_amended_witness :
  well_typed closed_error
  ∧ code closed_error = JInt ErrorCodes.ServerError
  ∧ has_dedicated_constructor ErrorCodes.ServerError = false
  ∧ roundtrip_preserves Example.format closed_error.
Proof.
  assert (well_typed closed_error) as Hwt.
  { repeat split; simpl; eauto. }
  split; [ exact Hwt | ]. split; [ reflexivity | ]. split; [ reflexivity | ].
  exact (proj2 (proj1 (proj2 (roundtrip_amended Example.format))
                  closed_error ErrorCodes.ServerError eq_refl eq_refl)).
Defined.

(** C6, counterexample: a retryable parse error with details comes back
    not retryable and without details. *)
Lemma parse_error_roundtrip_loses_flag_and_details :
  well_typed retryable_parse_error
  ∧ ¬ roundtrip_preserves Example.format retryable_parse_error.
Proof.
  split.
  - repeat split; simpl; eauto.
  - intros (e' & He & _ & Hr & _). vm_compute in He. injection He as <-.
    discriminate Hr.
Qed.

Module TransportFacts.
Import Transport.










End TransportFacts.


Lemma reject_pending_client entries w :
  client (reject_pending entries w) = client w.
Proof.
  revert w. induction entries as [ | [k [f t]] entries IH]; intros w; [ done | ].
  simpl. rewrite IH. destruct (is_done f (cancel t w)); simpl;
    by rewrite cancel_client.
Qed.

(** [connect()] re-raises whatever the version check raises and touches
    nothing on the way: no message is sent, the transport stays as it is. *)
Lemma connect_resume_check_fails rt result notified written w e :
  check_version rt result = Raise e →
  connect_resume rt result notified written w = (w, Raise e).
Proof. intros H. unfold connect_resume. by rewrite H. Qed.

(** C5.  The handshake of a freshly connected client against a server
    that reports protocol version 2.0.0: [connect()] raises the
    non-retryable version-mismatch error and the only message ever sent
    is the initialize request, but the transport is still connected when
    the error reaches the caller; through [bap_client], the same failure
    closes it. *)
Theorem connect_major_mismatch_leaves_transport_open :
  let w :=
    run Example.runtime
      [EvConnectBegin true true;
       EvFrame (Some (result_response 1 (initialize_result "2.0.0")))]
      Example.fresh in
  ∃ e,
    connect_resume Example.runtime (initialize_result "2.0.0") true true w
    = (w, Raise (BAPErr e))
    ∧ code e = JInt ErrorCodes.InvalidRequest
    ∧ retryable e = JBool false
    ∧ length (sent w) = 1%nat
    ∧ Transport.is_connected (_transport (client w)) = true
    ∧ Transport.is_connected
        (_transport
           (client (bap_client_resume Example.runtime
                      (initialize_result "2.0.0") true true true w).1)) = false.
Proof.
  intros w. eexists. split.
  - apply connect_resume_check_fails. vm_compute. reflexivity.
  - vm_compute. repeat split; reflexivity.
Qed.

(** C8.  [close()] resets the capability snapshot (and the initialized
    flag) but leaves the active page as it was. *)
Theorem close_keeps_active_page (w : World) :
  _server_capabilities (client (close_tail w)) = JNull
  ∧ _initialized (client (close_tail w)) = false
  ∧ _active_page (client (close_tail w)) = _active_page (client w).
Proof.
  unfold close_tail. simpl. rewrite reject_pending_client. done.
Qed.

(** ** The invariant under the updates of the dispatcher *)

Section InvariantSteps.
Context (n : Z) (P : gmap Z (nat * nat)) (fs : list FutureState)
  (ts : list Timer) (cs : list Call) (ss : list nat).
Hypothesis I : InvC n P fs ts cs ss.

Lemma pending_key_bound rid f t :
  P !! rid = Some (f, t) → (f < length cs)%nat ∧ rid ≤ n.
Proof.
  intros H. destruct (inv_pending _ _ _ _ _ _ I _ _ _ H) as (-> & _ & Hf & _).
  apply lookup_lt_Some in Hf. rewrite (inv_futures_len _ _ _ _ _ _ I) in Hf.
  rewrite (inv_request_id _ _ _ _ _ _ I). lia.
Qed.

Lemma fresh_key_free : P !! (n + 1) = None.
Proof.
  destruct (P !! (n + 1)) as [[f t] | ] eqn:H; [ | done ].
  apply pending_key_bound in H. lia.
Qed.

(** A request whose send goes through. *)
Lemma InvC_request_sent m :
  InvC (n + 1) (<[n + 1 := (length fs, length ts)]> P)
    (fs ++ [FPending]) (ts ++ [mkTimer (n + 1) m Armed])
    (cs ++ [mkCall (n + 1) m (length fs) (length ts) true]) ss.
Proof.
  destruct I as [Hn Hfl Htl Hi Ht Hp Ha Hnd Hs Hu].
  split.
  - rewrite length_app. simpl. lia.
  - rewrite !length_app. simpl. lia.
  - rewrite !length_app. simpl. lia.
  - intros k c Hk. apply lookup_app_Some in Hk as [Hk | [Hge Hk]].
    + by apply Hi.
    + apply list_lookup_singleton_Some in Hk as [Hk <-]. simpl.
      assert (k = length cs) by lia. subst k. rewrite Hfl, Htl. lia.
  - intros k tm Hk. apply lookup_app_Some in Hk as [Hk | [Hge Hk]].
    + destruct (Ht _ _ Hk) as (? & c & Hc & ?). split; [ done | ].
      exists c. split; [ | done ]. by apply lookup_app_l_Some.
    + apply list_lookup_singleton_Some in Hk as [Hk <-]. simpl.
      assert (k = length ts) by lia. subst k. split; [ lia | ].
      eexists. split;
        [ rewrite lookup_app_r by lia; rewrite Htl, Nat.sub_diag; reflexivity
        | reflexivity ].
  - intros rid f t Hl. rewrite lookup_insert in Hl.
    destruct (decide (n + 1 = rid)) as [<- | Hne].
    + injection Hl as <- <-. split; [ lia | ]. split; [ lia | ].
      split; [ by rewrite lookup_app_r, Nat.sub_diag by lia | ].
      split.
      * eexists. split;
          [ by rewrite lookup_app_r, Nat.sub_diag by lia | reflexivity ].
      * eexists. split;
          [ rewrite lookup_app_r by lia; by rewrite Hfl, Nat.sub_diag
          | reflexivity ].
    + destruct (Hp _ _ _ Hl) as (? & ? & Hf & (tm & Htm & ?) & (c & Hc & ?)).
      repeat split; try done.
      * by apply lookup_app_l_Some.
      * exists tm. split; [ by apply lookup_app_l_Some | done ].
      * exists c. split; [ by apply lookup_app_l_Some | done ].
  - intros k tm Hk Hst. apply lookup_app_Some in Hk as [Hk | [Hge Hk]].
    + rewrite lookup_insert_ne.
      * by apply (Ha _ tm).
      * apply lookup_lt_Some in Hk. lia.
    + apply list_lookup_singleton_Some in Hk as [Hk <-].
      assert (k = length ts) by lia. subst k.
      replace (Z.of_nat (length ts) + 1) with (n + 1) by lia.
      rewrite lookup_insert_eq. f_equal. f_equal. lia.
  - done.
  - intros f. rewrite Hs. split.
    + intros (s & Hf & Hd). exists s. split; [ by apply lookup_app_l_Some | done ].
    + intros (s & Hf & Hd). apply lookup_app_Some in Hf as [Hf | [_ Hf]].
      * by exists s.
      * apply list_lookup_singleton_Some in Hf as [_ <-]. done.
  - intros k c Hk Hsent. apply lookup_app_Some in Hk as [Hk | [Hge Hk]].
    + apply lookup_app_l_Some. by apply (Hu _ c).
    + apply list_lookup_singleton_Some in Hk as [_ <-]. done.
Qed.

(** A request whose send fails: the entry is taken out again and the
    timer is cancelled. *)
Lemma InvC_request_unsent m :
  InvC (n + 1) P
    (fs ++ [FPending]) (ts ++ [mkTimer (n + 1) m Cancelled])
    (cs ++ [mkCall (n + 1) m (length fs) (length ts) false]) ss.
Proof.
  destruct I as [Hn Hfl Htl Hi Ht Hp Ha Hnd Hs Hu].
  split.
  - rewrite length_app. simpl. lia.
  - rewrite !length_app. simpl. lia.
  - rewrite !length_app. simpl. lia.
  - intros k c Hk. apply lookup_app_Some in Hk as [Hk | [Hge Hk]].
    + by apply Hi.
    + apply list_lookup_singleton_Some in Hk as [Hk <-]. simpl.
      assert (k = length cs) by lia. subst k. rewrite Hfl, Htl. lia.
  - intros k tm Hk. apply lookup_app_Some in Hk as [Hk | [Hge Hk]].
    + destruct (Ht _ _ Hk) as (? & c & Hc & ?). split; [ done | ].
      exists c. split; [ | done ]. by apply lookup_app_l_Some.
    + apply list_lookup_singleton_Some in Hk as [Hk <-]. simpl.
      assert (k = length ts) by lia. subst k. split; [ lia | ].
      eexists. split;
        [ rewrite lookup_app_r by lia; rewrite Htl, Nat.sub_diag; reflexivity
        | reflexivity ].
  - intros rid f t Hl.
    destruct (Hp _ _ _ Hl) as (? & ? & Hf & (tm & Htm & ?) & (c & Hc & ?)).
    repeat split; try done.
    + by apply lookup_app_l_Some.
    + exists tm. split; [ by apply lookup_app_l_Some | done ].
    + exists c. split; [ by apply lookup_app_l_Some | done ].
  - intros k tm Hk Hst. apply lookup_app_Some in Hk as [Hk | [Hge Hk]].
    + by apply (Ha _ tm).
    + apply list_lookup_singleton_Some in Hk as [Hk <-]. done.
  - done.
  - intros f. rewrite Hs. split.
    + intros (s & Hf & Hd). exists s. split; [ by apply lookup_app_l_Some | done ].
    + intros (s & Hf & Hd). apply lookup_app_Some in Hf as [Hf | [_ Hf]].
      * by exists s.
      * apply list_lookup_singleton_Some in Hf as [_ <-]. done.
  - intros k c Hk Hsent. apply lookup_app_Some in Hk as [Hk | [Hge Hk]].
    + apply lookup_app_l_Some. by apply (Hu _ c).
    + apply list_lookup_singleton_Some in Hk as [Hk <-].
      assert (k = length fs) by lia. subst k.
      by rewrite lookup_app_r, Nat.sub_diag by lia.
Qed.

(** An entry leaves the table and its timer leaves the armed state. *)
Lemma InvC_retire rid f t tm st :
  P !! rid = Some (f, t) → ts !! t = Some tm → st ≠ Armed →
  InvC n (delete rid P) fs
    (<[t := mkTimer (t_request_id tm) (t_method tm) st]> ts) cs ss.
Proof.
  intros Hrid Htm Hst.
  destruct I as [Hn Hfl Htl Hi Ht Hp Ha Hnd Hs Hu].
  destruct (Hp _ _ _ Hrid) as (-> & -> & Hf & _ & _).
  split; try done.
  - by rewrite length_insert.
  - intros k tm' Hk. apply list_lookup_insert_Some in Hk
      as [(-> & <- & Hlt) | (Hne & Hk)].
    + simpl. by apply Ht.
    + by apply Ht.
  - intros rid' f' t' Hl. apply lookup_delete_Some in Hl as [Hne Hl].
    destruct (Hp _ _ _ Hl) as (-> & -> & Hf' & (tm' & Htm' & ?) & Hc).
    repeat split; try done.
    exists tm'. split; [ | done ].
    rewrite list_lookup_insert_ne; [ done | ]. intros ->. done.
  - intros k tm' Hk Harm. apply list_lookup_insert_Some in Hk
      as [(-> & <- & Hlt) | (Hne & Hk)].
    + done.
    + rewrite lookup_delete_ne by lia. by apply (Ha _ tm').
Qed.

End InvariantSteps.

(** A pending future that no entry refers to any more is settled. *)
Lemma InvC_settle n P fs ts cs ss f s c :
  InvC n P fs ts cs ss →
  fs !! f = Some FPending → cs !! f = Some c → c_sent c = true →
  P !! (Z.of_nat f + 1) = None → future_done s = true →
  InvC n P (<[f := s]> fs) ts cs (ss ++ [f]).
Proof.
  intros [Hn Hfl Htl Hi Ht Hp Ha Hnd Hs Hu] Hf Hc Hsent Hfree Hd.
  split; try done.
  - by rewrite length_insert.
  - intros rid f' t' Hl.
    destruct (Hp _ _ _ Hl) as (-> & -> & Hf' & Htm & Hc').
    repeat split; try done.
    rewrite list_lookup_insert_ne; [ done | ]. intros ->. by rewrite Hfree in Hl.
  - apply NoDup_app. split; [ done | ]. split; [ | apply NoDup_singleton ].
    intros x Hx ->%list_elem_of_singleton.
    apply Hs in Hx as (s' & Hs' & Hd').
    rewrite Hf in Hs'. by injection Hs' as <-.
  - intros f'. rewrite elem_of_app, list_elem_of_singleton, Hs. split.
    + intros [(s' & Hs' & Hd') | ->].
      * exists s'. split; [ | done ].
        rewrite list_lookup_insert_ne; [ done | ]. intros ->.
        rewrite Hf in Hs'. by injection Hs' as <-.
      * exists s. split; [ | done ].
        apply list_lookup_insert_eq. by apply lookup_lt_Some in Hf.
    + intros (s' & Hs' & Hd').
      destruct (decide (f = f')) as [<- | Hne]; [ by right | left ].
      rewrite list_lookup_insert_ne in Hs' by done. by exists s'.
  - intros k c' Hk Hu'. rewrite list_lookup_insert_ne; [ by apply (Hu _ c') | ].
    intros ->. rewrite Hc in Hk. injection Hk as <-. congruence.
Qed.

(** An entry is retired and its future settled in one go. *)
Lemma InvC_retire_settle n P fs ts cs ss rid f t tm st s :
  InvC n P fs ts cs ss →
  P !! rid = Some (f, t) → ts !! t = Some tm → st ≠ Armed →
  future_done s = true →
  InvC n (delete rid P) (<[f := s]> fs)
    (<[t := mkTimer (t_request_id tm) (t_method tm) st]> ts) cs (ss ++ [f]).
Proof.
  intros I Hrid Htm Hst Hd.
  destruct (inv_pending _ _ _ _ _ _ I _ _ _ Hrid)
    as (-> & -> & Hf & _ & (c & Hc & Hsent)).
  eapply InvC_settle; eauto.
  - eapply InvC_retire; eauto.
  - apply lookup_delete_eq.
Qed.

(** ** Liveness bookkeeping under the same updates *)

Lemma LiveC_request_sent n P fs ts cs ss m :
  InvC n P fs ts cs ss → LiveC P fs cs →
  LiveC (<[n + 1 := (length fs, length ts)]> P) (fs ++ [FPending])
    (cs ++ [mkCall (n + 1) m (length fs) (length ts) true]).
Proof.
  intros I L k c Hk Hsent.
  pose proof (inv_request_id _ _ _ _ _ _ I) as Hn.
  pose proof (inv_futures_len _ _ _ _ _ _ I) as Hfl.
  pose proof (inv_timers_len _ _ _ _ _ _ I) as Htl.
  apply lookup_app_Some in Hk as [Hk | [Hge Hk]].
  - destruct (L _ _ Hk Hsent) as [(s & Hs & Hd) | Hp].
    + left. exists s. split; [ by apply lookup_app_l_Some | done ].
    + right. rewrite lookup_insert_ne; [ done | ].
      apply lookup_lt_Some in Hk. lia.
  - apply list_lookup_singleton_Some in Hk as [Hk _].
    assert (k = length cs) by lia. subst k. right.
    replace (Z.of_nat (length cs) + 1) with (n + 1) by lia.
    rewrite lookup_insert_eq. f_equal. f_equal; lia.
Qed.

Lemma LiveC_request_unsent n P fs ts cs ss m :
  InvC n P fs ts cs ss → LiveC P fs cs →
  LiveC P (fs ++ [FPending])
    (cs ++ [mkCall (n + 1) m (length fs) (length ts) false]).
Proof.
  intros I L k c Hk Hsent.
  apply lookup_app_Some in Hk as [Hk | [Hge Hk]].
  - destruct (L _ _ Hk Hsent) as [(s & Hs & Hd) | Hp].
    + left. exists s. split; [ by apply lookup_app_l_Some | done ].
    + by right.
  - apply list_lookup_singleton_Some in Hk as [_ <-]. done.
Qed.

Lemma LiveC_retire_settle n P fs ts cs ss rid f t s :
  InvC n P fs ts cs ss → LiveC P fs cs →
  P !! rid = Some (f, t) → future_done s = true →
  LiveC (delete rid P) (<[f := s]> fs) cs.
Proof.
  intros I L Hrid Hd k c Hk Hsent.
  destruct (inv_pending _ _ _ _ _ _ I _ _ _ Hrid) as (-> & -> & Hf & _ & _).
  destruct (decide (k = f)) as [-> | Hne].
  - left. exists s. split; [ | done ].
    apply list_lookup_insert_eq. by apply lookup_lt_Some in Hf.
  - destruct (L _ _ Hk Hsent) as [(s' & Hs' & Hd') | Hp].
    + left. exists s'. split; [ | done ]. by rewrite list_lookup_insert_ne.
    + right. rewrite lookup_delete_ne by lia. done.
Qed.

(** ** The invariant along the events of a client *)

Lemma cancel_armed t tm w :
  timers w !! t = Some tm → t_state tm = Armed →
  cancel t w
  = set_timers (<[t := mkTimer (t_request_id tm) (t_method tm) Cancelled]> (timers w)) w.
Proof. intros H1 H2. unfold cancel. by rewrite H1, H2. Qed.

Lemma Inv_frame w w' :
  _request_id (client w') = _request_id (client w) →
  _pending_requests (client w') = _pending_requests (client w) →
  futures w' = futures w → timers w' = timers w →
  issued w' = issued w → settled w' = settled w →
  (Inv w → Inv w') ∧ (Live w → Live w').
Proof.
  unfold Inv, Live. intros -> -> -> -> -> ->. done.
Qed.

Lemma Inv_init url name version events :
  Inv (BAPClient__init__ url name version events)
  ∧ Live (BAPClient__init__ url name version events).
Proof.
  split.
  - split; simpl; try done.
    + apply NoDup_nil_2.
    + intros f. split; [ by intros ?%elem_of_nil | by intros (? & ? & _) ].
  - intros k c Hk. done.
Qed.

Lemma call_handlers_frame label hs arg w :
  (Inv w → Inv (call_handlers label hs arg w))
  ∧ (Live w → Live (call_handlers label hs arg w)).
Proof.
  pose proof (call_handlers_spec label hs arg w) as (_ & _ & Hc & Hf & Ht & Hi & Hs & _).
  apply Inv_frame; try done; by rewrite Hc.
Qed.

(** [_request]: both outcomes of the send. *)
Lemma _request_Inv method params written w :
  Inv w →
  Inv (_request method params written w).1
  ∧ (Live w → Live (_request method params written w).1).
Proof.
  intros I. unfold _request, transport_send. simpl.
  destruct (Transport.send written (_transport (client w))); simpl.
  - split.
    + unfold Inv. simpl. by apply InvC_request_sent.
    + intros L. unfold Live. simpl. by eapply LiveC_request_sent.
  - unfold cleanup. simpl. rewrite lookup_insert_eq.
    rewrite (cancel_armed _ (mkTimer (_request_id (client w) + 1) method Armed));
      [ | by simpl; rewrite lookup_app_r, Nat.sub_diag by lia | done ].
    assert (<[length (timers w) := mkTimer (_request_id (client w) + 1) method Cancelled]>
              (timers w ++ [mkTimer (_request_id (client w) + 1) method Armed])
            = timers w ++ [mkTimer (_request_id (client w) + 1) method Cancelled])
      as Ets.
    { replace (length (timers w)) with (length (timers w) + 0)%nat at 1 by lia.
      by rewrite insert_app_r. }
    assert (delete (_request_id (client w) + 1)
              (<[_request_id (client w) + 1 := (length (futures w), length (timers w))]>
                 (_pending_requests (client w)))
            = _pending_requests (client w)) as Ep.
    { rewrite delete_insert_eq. apply delete_id. eapply fresh_key_free. exact I. }
    split.
    + unfold Inv. simpl. rewrite Ets, Ep. by apply InvC_request_unsent.
    + intros L. unfold Live. simpl. rewrite Ep. by eapply LiveC_request_unsent.
Qed.

Lemma is_error_response_obj d : ∃ b, is_error_response (JObj d) = Ok b.
Proof.
  unfold is_error_response. simpl.
  destruct (dict_has "error" d); simpl; [ | by eexists ].
  destruct (default JNull (dict_get "error" d)); simpl; by eexists.
Qed.

Lemma lookup_pending_Some request_id w k f t :
  lookup_pending request_id w = Some (k, (f, t)) →
  py_num request_id = Some k ∧ _pending_requests (client w) !! k = Some (f, t).
Proof.
  unfold lookup_pending. destruct (py_num request_id) as [z | ]; [ | done ].
  destruct (_pending_requests (client w) !! z) as [e | ] eqn:H; [ | done ].
  intros [= <- <-]. done.
Qed.

Section Responses.
Context (rt : Runtime).

Lemma _handle_response_Inv data w :
  Inv w →
  Inv (_handle_response rt data w).1
  ∧ (Live w → accepted_by_mapper rt data = true → Live (_handle_response rt data w).1).
Proof.
  intros I. unfold _handle_response.
  destruct data as [ | | | | | | d]; simpl py_get; cbv iota; try done.
  set (request_id := default JNull (dict_get "id" d)).
  destruct (hashable request_id); simpl; [ | done ].
  destruct (lookup_pending request_id w) as [[k [f t]] | ] eqn:Hl.
  2:{ split; [ exact I | intros L _; exact L ]. }
  apply lookup_pending_Some in Hl as [_ HP].
  destruct (inv_pending _ _ _ _ _ _ I _ _ _ HP)
    as (Hk & -> & Hf & (tm & Htm & Harm) & _).
  rewrite (cancel_armed f tm) by done.
  unfold is_done. simpl futures. rewrite Hf. simpl.
  unfold accepted_by_mapper.
  destruct (is_error_response_obj d) as [b ->]. destruct b.
  - simpl py_get. cbn [res_bind].
    destruct (from_dict (py_format rt) (default JNull (dict_get "error" d)))
      as [error | e] eqn:Hfd; simpl.
    + split.
      * unfold Inv. simpl. by eapply InvC_retire_settle.
      * intros L _. unfold Live. simpl. by eapply LiveC_retire_settle.
    + split; [ | done ].
      unfold Inv. simpl. by eapply InvC_retire.
  - simpl. split.
    + unfold Inv. simpl. by eapply InvC_retire_settle.
    + intros L _. unfold Live. simpl. by eapply LiveC_retire_settle.
Qed.

End Responses.

Lemma keeps_refl w : keeps w w.
Proof. by split. Qed.

Lemma keeps_trans w1 w2 w3 : keeps w1 w2 → keeps w2 w3 → keeps w1 w3.
Proof.
  intros H12 H23 I1. destruct (H12 I1) as [I2 L2].
  destruct (H23 I2) as [I3 L3]. split; auto.
Qed.

Lemma keeps_frame w w' :
  _request_id (client w') = _request_id (client w) →
  _pending_requests (client w') = _pending_requests (client w) →
  futures w' = futures w → timers w' = timers w →
  issued w' = issued w → settled w' = settled w →
  keeps w w'.
Proof.
  intros H1 H2 H3 H4 H5 H6 I.
  destruct (Inv_frame w w' H1 H2 H3 H4 H5 H6) as [Hi Hl]. split; auto.
Qed.

Lemma keeps_call_handlers label hs arg w : keeps w (call_handlers label hs arg w).
Proof.
  intros I. destruct (call_handlers_frame label hs arg w) as [Hi Hl]. split; auto.
Qed.

Lemma keeps_request method params written w :
  keeps w (_request method params written w).1.
Proof. intros I. by apply _request_Inv. Qed.

Section Steps.
Context (rt : Runtime).

Lemma keeps_notification data w : keeps w (_handle_notification rt data w).1.
Proof.
  unfold _handle_notification, dispatch_model.
  repeat match goal with
         | |- context [match ?x with _ => _ end] => destruct x; simpl
         end;
    first [ apply keeps_refl | apply keeps_call_handlers ].
Qed.

Lemma keeps_handle_error e w : keeps w (_handle_error e w).
Proof. apply keeps_call_handlers. Qed.

Lemma keeps_handle_close w : keeps w (_handle_close w).
Proof. apply keeps_call_handlers. Qed.

(** One inbound frame. *)
Lemma deliver_Inv parsed w :
  Inv w →
  Inv (deliver rt parsed w)
  ∧ (Live w → benign rt (EvFrame parsed) → Live (deliver rt parsed w)).
Proof.
  intros I.
  assert (Inv (_handle_message rt parsed w).1
          ∧ (Live w → benign rt (EvFrame parsed) →
             Live (_handle_message rt parsed w).1)) as [I' L'].
  { unfold _handle_message. destruct parsed as [data | ]; [ | by split ].
    destruct (py_contains "id" data) as [[ | ] | ]; simpl.
    - apply _handle_response_Inv. exact I.
    - destruct (py_contains "method" data) as [[ | ] | ]; simpl; try by split.
      destruct (keeps_notification data w I) as [Hi Hl]. split; auto.
    - by split. }
  unfold deliver. destruct (_handle_message rt parsed w) as [w1 [ | e]]; simpl in *.
  - split; assumption.
  - destruct (keeps_trans _ _ _ (keeps_handle_error e w1)
                (keeps_handle_close (_handle_error e w1)) I') as [Hi Hl].
    split; auto.
Qed.

(** A timer goes off. *)
Lemma fire_Inv t w : Inv w → Inv (fire t w) ∧ (Live w → Live (fire t w)).
Proof.
  intros I. unfold fire.
  destruct (timers w !! t) as [tm | ] eqn:Htm; [ | by split ].
  destruct (t_state tm) eqn:Hst; try by split.
  pose proof (inv_armed _ _ _ _ _ _ I _ _ Htm Hst) as HP.
  destruct (inv_timers _ _ _ _ _ _ I _ _ Htm) as [Hid _].
  destruct (inv_pending _ _ _ _ _ _ I _ _ _ HP) as (_ & _ & Hf & _).
  rewrite <- Hid in HP.
  unfold on_timeout. simpl. rewrite HP.
  unfold is_done. simpl. rewrite Hf. simpl. split.
  - unfold Inv. simpl. eapply InvC_retire_settle; eauto.
  - intros L. unfold Live. simpl. by eapply LiveC_retire_settle.
Qed.

(** The clean-up of a call whose future is done finds nothing to do. *)
Lemma cleanup_done call k w :
  Inv w → issued w !! k = Some call →
  is_done (c_future call) w = true →
  cleanup (c_id call) w = w.
Proof.
  intros I Hk Hd. unfold cleanup.
  destruct (_pending_requests (client w) !! c_id call) as [[f t] | ] eqn:HP;
    [ | done ].
  destruct (inv_issued _ _ _ _ _ _ I _ _ Hk) as (Hid & Hfut & _).
  destruct (inv_pending _ _ _ _ _ _ I _ _ _ HP) as (Hrid & _ & Hf & _).
  assert (f = c_future call) as -> by lia.
  unfold is_done in Hd. by rewrite Hf in Hd.
Qed.

Lemma _request_await_world call k w w' r :
  Inv w → issued w !! k = Some call →
  _request_await call w = Some (w', r) → w' = w.
Proof.
  intros I Hk. unfold _request_await.
  destruct (futures w !! c_future call) as [[ | v | e] | ] eqn:Hf; try done.
  - by intros [= <- _].
  - intros [= <- _]. eapply cleanup_done; eauto.
    unfold is_done. by rewrite Hf.
Qed.

End Steps.

(** ** The sweep of [close()] *)

Lemma foldl_delete_lookup (ks : list Z) (P : gmap Z (nat * nat)) j :
  foldl (λ P k, delete k P) P ks !! j
  = if decide (j ∈ ks) then None else P !! j.
Proof.
  revert P. induction ks as [ | k ks IH]; intros P.
  - simpl foldl. case_decide as H; [ by apply elem_of_nil in H | done ].
  - simpl foldl. rewrite IH.
    destruct (decide (j ∈ ks)) as [Hin | Hnin];
      destruct (decide (j ∈ k :: ks)) as [Hin' | Hnin']; try done.
    + destruct Hnin'. by right.
    + apply elem_of_cons in Hin' as [-> | ?]; [ apply lookup_delete_eq | done ].
    + apply lookup_delete_ne. intros ->. apply Hnin'. by left.
Qed.

Lemma foldl_delete_all (P : gmap Z (nat * nat)) :
  foldl (λ P k, delete k P) P (map_to_list P).*1 = ∅.
Proof.
  apply map_empty. intros j. rewrite foldl_delete_lookup.
  destruct (decide (j ∈ (map_to_list P).*1)) as [ | Hn]; [ done | ].
  destruct (P !! j) as [e | ] eqn:He; [ | done ].
  destruct Hn. apply list_elem_of_fmap. exists (j, e). split; [ done | ].
  by apply elem_of_map_to_list.
Qed.

Lemma reject_pending_frame entries w :
  issued (reject_pending entries w) = issued w
  ∧ sent (reject_pending entries w) = sent w
  ∧ invoked (reject_pending entries w) = invoked w
  ∧ logged (reject_pending entries w) = logged w.
Proof.
  revert w. induction entries as [ | [k [f t]] entries IH]; intros w; [ done | ].
  simpl. destruct (IH (if is_done f (cancel t w) then cancel t w
                       else settle f (FException closed_error) (cancel t w)))
    as (-> & -> & -> & ->).
  destruct (is_done f (cancel t w)); simpl; by autorewrite with frame.
Qed.

(** A future that is done keeps its state through the sweep. *)
Lemma reject_pending_done_stable entries w f s :
  futures w !! f = Some s → future_done s = true →
  futures (reject_pending entries w) !! f = Some s.
Proof.
  revert w. induction entries as [ | [k [f0 t0]] entries IH]; intros w Hf Hd;
    [ done | ].
  simpl. apply IH; [ | done ].
  destruct (is_done f0 (cancel t0 w)) eqn:Hdone; simpl.
  - by rewrite cancel_futures.
  - rewrite cancel_futures. rewrite list_lookup_insert_ne; [ done | ].
    intros ->. rewrite cancel_is_done in Hdone. unfold is_done in Hdone.
    rewrite Hf in Hdone. congruence.
Qed.

Lemma reject_pending_loop entries :
  ∀ (P : gmap Z (nat * nat)) (w : World),
    InvC (_request_id (client w)) P (futures w) (timers w) (issued w) (settled w) →
    NoDup entries.*1 →
    (∀ k e, (k, e) ∈ entries → P !! k = Some e) →
    let w' := reject_pending entries w in
    let P' := foldl (λ P k, delete k P) P entries.*1 in
    InvC (_request_id (client w)) P' (futures w') (timers w') (issued w') (settled w')
    ∧ (LiveC P (futures w) (issued w) → LiveC P' (futures w') (issued w'))
    ∧ (∀ k f t, (k, (f, t)) ∈ entries →
       futures w' !! f = Some (FException closed_error)).
Proof.
  induction entries as [ | [k [f t]] entries IH]; intros P w I Hnd Hin.
  - cbv zeta. simpl. split; [ done | ]. split; [ done | ].
    intros k f t H. by apply elem_of_nil in H.
  - assert (P !! k = Some (f, t)) as HP by (apply Hin; left).
    destruct (inv_pending _ _ _ _ _ _ I _ _ _ HP)
      as (Hk & -> & Hf & (tm & Htm & Harm) & _).
    apply NoDup_cons in Hnd as [Hk_notin Hnd].
    set (w2 := settle f (FException closed_error)
                 (set_timers
                    (<[f := mkTimer (t_request_id tm) (t_method tm) Cancelled]>
                       (timers w)) w)).
    assert (reject_pending ((k, (f, f)) :: entries) w = reject_pending entries w2)
      as Estep.
    { simpl. rewrite (cancel_armed f tm) by done.
      unfold is_done. simpl. by rewrite Hf. }
    assert (InvC (_request_id (client w2)) (delete k P) (futures w2) (timers w2)
              (issued w2) (settled w2)) as I2.
    { subst w2. simpl. by eapply InvC_retire_settle. }
    destruct (IH (delete k P) w2 I2 Hnd) as (I3 & L3 & F3).
    { intros k' e' Hin'. rewrite lookup_delete_ne.
      - apply Hin. by right.
      - intros ->. apply Hk_notin. apply list_elem_of_fmap. by exists (k', e'). }
    cbv zeta. rewrite Estep. simpl foldl. split; [ exact I3 | ]. split.
    + intros L. apply L3. subst w2. simpl. by eapply LiveC_retire_settle.
    + intros k' f' t' [[= -> -> ->] | Hin']%elem_of_cons.
      * apply reject_pending_done_stable; [ | done ].
        subst w2. simpl. apply list_lookup_insert_eq. by apply lookup_lt_Some in Hf.
      * by eapply F3.
Qed.

(** [close()] from the closing of the transport on: every entry of the
    table is settled with the client-closed error, the table ends empty,
    and the invariant is kept. *)
Lemma close_tail_spec w :
  Inv w →
  Inv (close_tail w)
  ∧ (Live w → Live (close_tail w))
  ∧ _pending_requests (client (close_tail w)) = ∅
  ∧ (∀ k f t, _pending_requests (client w) !! k = Some (f, t) →
     futures (close_tail w) !! f = Some (FException closed_error))
  ∧ (∀ f s, futures w !! f = Some s → future_done s = true →
     futures (close_tail w) !! f = Some s)
  ∧ issued (close_tail w) = issued w.
Proof.
  intros I. unfold close_tail.
  set (w2 := with_client (set_session false JNull)
               (with_client
                  (λ c, set_transport (Transport.close (_transport c)) c) w)).
  destruct (reject_pending_loop (map_to_list (_pending_requests (client w2)))
              (_pending_requests (client w2)) w2) as (I3 & L3 & F3).
  - exact I.
  - apply NoDup_fst_map_to_list.
  - intros k e. apply elem_of_map_to_list.
  - rewrite foldl_delete_all in I3, L3.
    split; [ | split; [ | split; [ | split; [ | split ] ] ] ].
    + unfold Inv. simpl. by rewrite reject_pending_client.
    + intros L. unfold Live. simpl. by apply L3.
    + done.
    + intros k f t HP. simpl. eapply F3. by apply elem_of_map_to_list.
    + intros f s Hf Hd. simpl. by apply reject_pending_done_stable.
    + simpl.
      by destruct (reject_pending_frame
                     (map_to_list (_pending_requests (client w))) w2) as [-> _].
Qed.

(** ** Every event keeps the invariant *)

Lemma keeps_with_client f w :
  (∀ c, _request_id (f c) = _request_id c
        ∧ _pending_requests (f c) = _pending_requests c) →
  keeps w (with_client f w).
Proof.
  intros H. destruct (H (client w)) as [H1 H2]. by apply keeps_frame.
Qed.

Lemma keeps_set_transport t w : keeps w (with_client (set_transport t) w).
Proof. by apply keeps_with_client. Qed.

Lemma keeps_set_session b caps w : keeps w (with_client (set_session b caps) w).
Proof. by apply keeps_with_client. Qed.

Lemma keeps_log r w : keeps w (log r w).
Proof. by apply keeps_frame. Qed.

Lemma keeps_transport_send written m w : keeps w (transport_send written m w).1.
Proof.
  unfold transport_send. destruct (Transport.send _ _); simpl;
    [ by apply keeps_frame | apply keeps_refl ].
Qed.

Lemma keeps_close_begin written w : keeps w (close_begin written w).1.
Proof.
  unfold close_begin. destruct (_initialized (client w)); [ | apply keeps_refl ].
  pose proof (keeps_request "shutdown"
                (JObj [("saveState", JBool false); ("closePages", JBool true)])
                written w) as H.
  by destruct (_request _ _ _ _).
Qed.

Lemma keeps_close_tail w : keeps w (close_tail w).
Proof. intros I. destruct (close_tail_spec w I) as (? & ? & _). by split. Qed.

Section Run.
Context (rt : Runtime).

Lemma keeps_connect_begin accepted written w :
  keeps w (connect_begin accepted written w).1.
Proof.
  unfold connect_begin.
  destruct (Transport.connect accepted (_transport (client w))) as [[t evs] [ | e]].
  - eapply keeps_trans; [ apply (keeps_set_transport t) | apply keeps_request ].
  - simpl. destruct (Transport.on_error _).
    + eapply keeps_trans; [ apply (keeps_set_transport t) | apply keeps_handle_error ].
    + apply keeps_set_transport.
Qed.

Lemma keeps_connect_resume result notified written w :
  keeps w (connect_resume rt result notified written w).1.
Proof.
  unfold connect_resume.
  destruct (check_version rt result) as [older | e]; [ | apply keeps_refl ].
  set (w1 := if older then log _ w else w).
  assert (keeps w w1) as H1
    by (subst w1; destruct older; [ apply keeps_log | apply keeps_refl ]).
  destruct (py_get result "capabilities" JNull) as [caps | e]; [ | exact H1 ].
  set (w2 := with_client (set_session true caps) w1).
  assert (keeps w w2) as H2
    by (eapply keeps_trans; [ exact H1 | apply keeps_set_session ]).
  unfold _notify.
  pose proof (keeps_transport_send notified
                (JObj [("jsonrpc", JStr "2.0");
                       ("method", JStr "notifications/initialized")]) w2) as H3.
  destruct (transport_send notified _ w2) as [w3 [ | e]]; simpl in H3;
    [ | by eapply keeps_trans ].
  destruct (_events (client w3)) as [ | ev evs] eqn:Hev;
    [ by eapply keeps_trans | ].
  pose proof (keeps_request "events/subscribe"
                (JObj [("events", JList (JStr <$> ev :: evs))]) written w3) as H4.
  destruct (_request _ _ _ w3) as [w4 [call | e]]; simpl in *;
    eapply keeps_trans; eauto; eapply keeps_trans; eauto.
Qed.

Lemma step_Inv e w :
  Inv w →
  Inv (step rt e w) ∧ (Live w → benign rt e → Live (step rt e w)).
Proof.
  intros I.
  assert (∀ w', keeps w w' → Inv w' ∧ (Live w → benign rt e → Live w')) as K.
  { intros w' H. destruct (H I) as [? ?]. split; auto. }
  destruct e; simpl step.
  - apply K, keeps_request.
  - by apply deliver_Inv.
  - destruct (fire_Inv t w I) as [? ?]. split; auto.
  - destruct (issued w !! k) as [call | ] eqn:Hk; [ | by apply K, keeps_refl ].
    destruct (_request_await call w) as [[w1 r] | ] eqn:Ha;
      [ | by apply K, keeps_refl ].
    rewrite (_request_await_world _ _ _ _ _ I Hk Ha). apply K, keeps_refl.
  - apply K, keeps_close_begin.
  - apply K, keeps_close_tail.
  - apply K, keeps_connect_begin.
  - destruct (issued w !! k) as [call | ] eqn:Hk; [ | by apply K, keeps_refl ].
    destruct (_request_await call w) as [[w1 r] | ] eqn:Ha;
      [ | by apply K, keeps_refl ].
    rewrite (_request_await_world _ _ _ _ _ I Hk Ha).
    destruct r; apply K; [ apply keeps_connect_resume | apply keeps_refl ].
  - apply K. by apply keeps_with_client.
  - apply K. by apply keeps_with_client.
  - apply K. by apply keeps_with_client.
  - apply K. by apply keeps_with_client.
  - apply K. by apply keeps_with_client.
Qed.

Lemma run_Inv evs w :
  Inv w →
  Inv (run rt evs w) ∧ (Live w → Forall (benign rt) evs → Live (run rt evs w)).
Proof.
  revert w. induction evs as [ | e evs IH]; intros w I; [ by split | ].
  destruct (step_Inv e w I) as [I1 L1].
  destruct (IH (step rt e w) I1) as [I2 L2]. simpl. split; [ done | ].
  intros L [Hb Hbs]%Forall_cons. auto.
Qed.

Lemma reachable_Inv w : reachable rt w → Inv w.
Proof.
  intros (url & name & version & events & evs & ->).
  apply run_Inv, Inv_init.
Qed.

End Run.

(** ** A settled future keeps its outcome; issued frames stay *)



Lemma extends_frame w w' :
  futures w' = futures w → issued w' = issued w → extends w w'.
Proof.
  intros Hf Hi. split; [ by rewrite Hf | ]. exists []. by rewrite app_nil_r.
Qed.

Lemma extends_cancel t w : extends w (cancel t w).
Proof. apply extends_frame; by autorewrite with frame. Qed.





Lemma cleanup_issued rid w : issued (cleanup rid w) = issued w.
Proof.
  unfold cleanup. destruct (_ !! rid) as [[f t] | ]; [ | done ].
  by autorewrite with frame.
Qed.




Section Later.
Context (rt : Runtime).











End Later.

(** ** Counting settlements *)

Lemma count_NoDup (l : list nat) f :
  NoDup l →
  length (filter (λ x, x = f) l) = if decide (f ∈ l) then 1%nat else 0%nat.
Proof.
  induction l as [ | x l IH]; intros Hnd.
  - case_decide as H; [ by apply elem_of_nil in H | done ].
  - apply NoDup_cons in Hnd as [Hx Hnd]. specialize (IH Hnd).
    rewrite filter_cons.
    destruct (decide (x = f)) as [-> | Hne]; simpl; rewrite IH.
    + rewrite decide_False by done. by rewrite decide_True by left.
    + destruct (decide (f ∈ l)) as [Hin | Hnin].
      * by rewrite decide_True by (by right).
      * rewrite decide_False; [ done | ].
        intros [? | ?]%elem_of_cons; congruence.
Qed.

Lemma settle_count_Inv w f :
  Inv w → settle_count f w = if is_done f w then 1%nat else 0%nat.
Proof.
  intros I. unfold settle_count.
  rewrite (count_NoDup _ _ (inv_settled_nodup _ _ _ _ _ _ I)).
  pose proof (inv_settled _ _ _ _ _ _ I f) as Hs. unfold is_done.
  destruct (decide (f ∈ settled w)) as [Hin | Hnin].
  - apply Hs in Hin as (s & -> & ->). done.
  - destruct (futures w !! f) as [s | ] eqn:Hf; [ | done ].
    destruct (future_done s) eqn:Hd; [ | done ].
    destruct Hnin. apply Hs. eauto.
Qed.

Section Dispatcher.
Context (rt : Runtime).



Lemma reachable_benign_reachable w : reachable_benign rt w → reachable rt w.
Proof.
  intros (url & name & version & events & evs & _ & ->). by repeat eexists.
Qed.



(** A response whose id selects no entry: a warning, or [TypeError]
    when the id cannot be hashed; the world is left alone. *)
Lemma unmatched_response data id w :
  py_get data "id" JNull = Ok id →
  lookup_pending id w = None →
  _handle_response rt data w
  = if hashable id
    then (log (LogWarning "Received response for unknown request" id) w, Ok ())
    else (w, Raise TypeError).
Proof.
  intros Hid Hl. unfold _handle_response. rewrite Hid.
  destruct (hashable id); simpl; [ | done ]. by rewrite Hl.
Qed.



(** The timer of a pending call goes off. *)
Lemma fire_pending w k call :
  Inv w → issued w !! k = Some call →
  is_Some (_pending_requests (client w) !! c_id call) →
  (∃ tm, timers w !! c_timer call = Some tm ∧ t_state tm = Armed)
  ∧ futures (fire (c_timer call) w) !! c_future call
    = Some (FException (timeout_error (c_method call)))
  ∧ _pending_requests (client (fire (c_timer call) w)) !! c_id call = None
  ∧ settle_count (c_future call) w = 0%nat
  ∧ settle_count (c_future call) (fire (c_timer call) w) = 1%nat.
Proof.
  intros I Hk [[f t] HP].
  destruct (inv_issued _ _ _ _ _ _ I _ _ Hk) as (Hid & Hfut & Htim).
  destruct (inv_pending _ _ _ _ _ _ I _ _ _ HP)
    as (Hrid & -> & Hf & (tm & Htm & Harm) & _).
  assert (f = k) as -> by lia.
  destruct (inv_timers _ _ _ _ _ _ I _ _ Htm) as (Htid & c' & Hc' & Hmeth).
  rewrite Hk in Hc'. injection Hc' as <-.
  assert (futures (fire k w) !! k = Some (FException (timeout_error (c_method call)))
          ∧ _pending_requests (client (fire k w)) !! c_id call = None) as [Hfut' Hgone].
  { unfold fire. rewrite Htm, Harm. unfold on_timeout. simpl.
    rewrite Htid, <- Hid, HP. unfold is_done. simpl. rewrite Hf. simpl.
    rewrite Hmeth. split.
    - apply list_lookup_insert_eq. by apply lookup_lt_Some in Hf.
    - apply lookup_delete_eq. }
  rewrite Hfut, Htim. split; [ by exists tm | ].
  split; [ exact Hfut' | ]. split; [ exact Hgone | ].
  destruct (fire_Inv k w I) as [I' _].
  rewrite !settle_count_Inv by done. unfold is_done. by rewrite Hf, Hfut'.
Qed.

End Dispatcher.

Lemma example_reachable evs :
  reachable Example.runtime (run Example.runtime evs Example.fresh).
Proof. by repeat eexists. Qed.

(** C2.  The calls issued by one client carry the ids 1, 2, ..., N in the
    order of issue, whatever else happens in between: the ids increase
    strictly, none occurs twice, and the next call gets N + 1. *)
Theorem correlation_ids_sequential (rt : Runtime) (w : World) :
  reachable rt w →
  c_id <$> issued w = seqZ 1 (Z.of_nat (length (issued w)))
  ∧ _request_id (client w) = Z.of_nat (length (issued w))
  ∧ NoDup (c_id <$> issued w)
  ∧ (∀ i j a b, (i < j)%nat →
       issued w !! i = Some a → issued w !! j = Some b → c_id a < c_id b)
  ∧ (∀ method params written,
       ∃ call, issued (_request method params written w).1 = issued w ++ [call]
               ∧ c_id call = Z.of_nat (length (issued w)) + 1).
Proof.
  intros I%reachable_Inv.
  assert (c_id <$> issued w = seqZ 1 (Z.of_nat (length (issued w)))) as Hids.
  { apply list_eq. intros i. rewrite list_lookup_fmap.
    destruct (issued w !! i) as [c | ] eqn:Hi; simpl.
    - destruct (inv_issued _ _ _ _ _ _ I _ _ Hi) as (-> & _).
      apply lookup_lt_Some in Hi. rewrite lookup_seqZ_lt by lia. f_equal. lia.
    - apply lookup_ge_None in Hi. by rewrite lookup_seqZ_ge by lia. }
  split; [ exact Hids | ]. split; [ exact (inv_request_id _ _ _ _ _ _ I) | ].
  split; [ rewrite Hids; apply NoDup_seqZ | ]. split.
  - intros i j a b Hlt Ha Hb.
    destruct (inv_issued _ _ _ _ _ _ I _ _ Ha) as (-> & _).
    destruct (inv_issued _ _ _ _ _ _ I _ _ Hb) as (-> & _). lia.
  - intros method params written.
    pose proof (inv_request_id _ _ _ _ _ _ I) as Hn.
    unfold _request, transport_send. simpl.
    destruct (Transport.send written (_transport (client w))); simpl.
    + eexists. split; [ reflexivity | ]. simpl. lia.
    + eexists. unfold add_issued. cbn [issued]. rewrite cleanup_issued. simpl.
      split; [ reflexivity | ]. simpl. lia.
Qed.

(** C2, witness: two calls, the second of which fails to send. *)
Lemma correlation_ids_sequential_witness :
  let w := run Example.runtime
             [EvRequest "page/list" (JObj []) true;
              EvConnectBegin true true;
              EvRequest "page/list" (JObj []) false] Example.fresh in
  reachable Example.runtime w
  ∧ c_id <$> issued w = seqZ 1 (Z.of_nat (length (issued w))).
Proof.
  intros w. split.
  - apply example_reachable.
  - exact (proj1 (correlation_ids_sequential Example.runtime w
                    (example_reachable _))).
Defined.

(** C3.  When the timeout of a call elapses while the call is still in
    the pending table, its timer is armed and its callback settles the
    call's future with the timeout error: retryable, with a message that
    names the method.  The entry leaves the table in the same step, the
    future has then been settled exactly once, and a response that
    arrives for that id afterwards only produces a warning. *)
Theorem timeout_settles_pending_call (rt : Runtime) (w : World) (k : nat)
    (call : Call) :
  reachable rt w →
  issued w !! k = Some call →
  is_Some (_pending_requests (client w) !! c_id call) →
  let w' := fire (c_timer call) w in
  (∃ tm, timers w !! c_timer call = Some tm ∧ t_state tm = Armed)
  ∧ futures w' !! c_future call = Some (FException (timeout_error (c_method call)))
  ∧ code (timeout_error (c_method call)) = JInt ErrorCodes.Timeout
  ∧ retryable (timeout_error (c_method call)) = JBool true
  ∧ message (timeout_error (c_method call))
    = JStr (String.append "Request timeout: " (c_method call))
  ∧ _pending_requests (client w') !! c_id call = None
  ∧ settle_count (c_future call) w' = 1%nat
  ∧ (∀ data,
       py_get data "id" JNull = Ok (JInt (c_id call)) →
       _handle_response rt data w'
       = (log (LogWarning "Received response for unknown request"
                 (JInt (c_id call))) w', Ok ())).
Proof.
  intros I%reachable_Inv Hk HP w'.
  destruct (fire_pending w k call I Hk HP) as (Htm & Hf & Hgone & _ & Hcount).
  repeat split; try done.
  intros data Hid.
  rewrite (unmatched_response rt data (JInt (c_id call))); [ done | done | ].
  unfold lookup_pending. cbn [py_num]. subst w'. by rewrite Hgone.
Qed.

(** C3, witness: the initialize request of a handshake that gets no
    answer. *)
Lemma timeout_settles_pending_call_witness :
  reachable Example.runtime handshake_started
  ∧ issued handshake_started !! 0%nat = Some (mkCall 1 "initialize" 0 0 true)
  ∧ is_Some (_pending_requests (client handshake_started) !! 1)
  ∧ futures (fire 0 handshake_started) !! 0%nat
    = Some (FException (timeout_error "initialize")).
Proof.
  assert (is_Some (_pending_requests (client handshake_started) !! 1)) as HP
    by (by eexists).
  split; [ apply example_reachable | ]. split; [ reflexivity | ].
  split; [ exact HP | ].
  exact (proj1 (proj2 (timeout_settles_pending_call Example.runtime
                         handshake_started 0 (mkCall 1 "initialize" 0 0 true)
                         (example_reachable _) eq_refl HP))).
Defined.




(** The slip that the liveness part of C1 leaves out: an error envelope
    whose ["data"] is [null] takes the entry out of the table and cancels
    the timer, then [from_dict] raises; neither the timeout nor [close()]
    settles the future afterwards. *)
Lemma refused_error_envelope_strands_call :
  let w := run Example.runtime
             [EvFrame (Some (error_response_null_data 3)); EvTimer 2; EvCloseTail]
             session_with_call in
  accepted_by_mapper Example.runtime (error_response_null_data 3) = false
  ∧ futures w !! 2%nat = Some FPending
  ∧ settle_count 2 w = 0%nat
  ∧ t_state <$> timers w !! 2%nat = Some Cancelled.
Proof. vm_compute. done. Qed.




(* ===================================================================== *)
(** * Further properties of the same code *)
(* ===================================================================== *)

(** ** Envelopes and type guards *)

(** X1.  The three type guards never overlap, and a message satisfies
    one of them exactly when it has an ["id"] or a ["method"] key. *)
Theorem type_guards_partition (d : dict) :
  is_request d && is_response d = false
  ∧ is_request d && is_notification d = false
  ∧ is_response d && is_notification d = false
  ∧ is_request d || is_response d || is_notification d
    = dict_has "id" d || dict_has "method" d.
Proof.
  unfold is_request, is_response, is_notification.
  destruct (dict_has "id" d), (dict_has "method" d); done.
Qed.

(** X2.  What the builders make is recognised by the guards: a request
    is a request and nothing else, with its id, method and params where
    the client reads them; a notification is a notification; a success
    response is a response that [is_error_response] rejects; an error
    response is a response that [is_error_response] accepts exactly when
    the code is an [int] and the message a [str], whatever the data. *)
Theorem builders_match_guards :
  (∀ id method params,
     ∃ d, create_request id method params = JObj d
          ∧ is_request d = true
          ∧ dict_get "id" d = Some id
          ∧ dict_get "method" d = Some (JStr method)
          ∧ dict_get "params" d = params)
  ∧ (∀ method params,
       ∃ d, create_notification method params = JObj d
            ∧ is_notification d = true
            ∧ dict_get "method" d = Some (JStr method)
            ∧ dict_get "params" d = params)
  ∧ (∀ id result,
       ∃ d, create_success_response id result = JObj d
            ∧ is_response d = true
            ∧ dict_get "result" d = Some result
            ∧ is_error_response (JObj d) = Ok false)
  ∧ (∀ id code message data,
       ∃ d, create_error_response id code message data = JObj d
            ∧ is_response d = true
            ∧ is_error_response (JObj d)
              = Ok (isinstance_int code && isinstance_str message)).
Proof.
  split; [ | split; [ | split ] ].
  - intros id method params. eexists. split; [ reflexivity | ].
    by destruct params.
  - intros method params. eexists. split; [ reflexivity | ].
    by destruct params.
  - intros id result. eexists. by split.
  - intros id code message data. eexists. split; [ reflexivity | ].
    by destruct data.
Qed.

(** ** The error mapper *)

Section Mapper.
Context (fmt : json → string).

Lemma details_get_readable details k dflt other :
  readable_details details →
  ∃ v, details_get details k dflt other = Ok v.
Proof.
  unfold details_get. intros [-> | [d ->]]; [ by eexists | ].
  destruct (truthy (JObj d)); simpl; by eexists.
Qed.

Lemma mapper_total c m r ra d :
  hashable c = true → readable_details d →
  ∃ e, create_error_from_code fmt c m r ra d = Ok e.
Proof.
  intros Hh Hd. rewrite create_error_from_code_hashable by done.
  unfold special_constructors, other_constructors.
  repeat match goal with
         | |- context [if code_is c ?x then _ else _] =>
             destruct (code_is c x)
         end.
  all: repeat match goal with
         | |- context [details_get ?dd ?k ?x ?y] =>
             let v := fresh "v" in
             destruct (details_get_readable dd k x y Hd) as [v ->];
             cbn [res_bind]
         end.
  all: by eexists.
Qed.

(** X3.  [from_dict] returns an error, and raises nothing, on every
    error object whose code (if present) can be hashed, whose ["data"]
    member is absent or an object, and whose ["details"] (if present) is
    falsy or an object. *)
Theorem from_dict_total_on_wire_format (d : dict) :
  hashable (default (JInt ErrorCodes.InternalError) (dict_get "code" d)) = true →
  (∀ v, dict_get "data" d = Some v →
        ∃ dd, v = JObj dd
              ∧ readable_details (default JNull (dict_get "details" dd))) →
  ∃ e, from_dict fmt (JObj d) = Ok e.
Proof.
  intros Hc Hd. unfold from_dict. simpl py_get. cbn [res_bind].
  destruct (dict_get "data" d) as [v | ] eqn:Hv; simpl.
  - destruct (Hd v eq_refl) as (dd & -> & Hdet). simpl. by apply mapper_total.
  - apply mapper_total; [ done | by left ].
Qed.

(** X4.  [from_dict] raises [AttributeError] on every error object whose
    ["data"] member is present but is not an object ([null], a string, a
    number, a list), whatever the other members are. *)
Theorem from_dict_rejects_non_object_data (d : dict) (v : json) :
  dict_get "data" d = Some v →
  isinstance_dict v = false →
  from_dict fmt (JObj d) = Raise AttributeError.
Proof.
  intros Hv Hn. unfold from_dict. simpl py_get. cbn [res_bind].
  rewrite Hv. simpl. by destruct v.
Qed.

Lemma mapped_code c m r ra d e :
  create_error_from_code fmt c m r ra d = Ok e →
  hashable c = true ∧ py_num (code e) = py_num c.
Proof.
  intros H.
  destruct (hashable c) eqn:Hh;
    [ | unfold create_error_from_code, code_in_table in H;
        rewrite Hh in H; discriminate ].
  split; [ done | ].
  rewrite create_error_from_code_hashable in H by done.
  unfold special_constructors, other_constructors in H.
  repeat match type of H with
         | context [if code_is c ?x then _ else _] =>
             let E := fresh "E" in destruct (code_is c x) eqn:E
         end;
    repeat match type of H with
           | context [details_get ?a ?k ?x ?y] =>
               destruct (details_get a k x y); cbn [res_bind] in H;
               [ | discriminate ]
           end;
    injection H as <-; try reflexivity;
    match goal with
    | E : code_is c ?x = true |- _ =>
        unfold code_is in E; destruct (py_num c) as [z | ]; [ | discriminate ];
        apply Z.eqb_eq in E; subst z; reflexivity
    end.
Qed.

(** X5.  The error the mapper returns carries the code it was given (as
    a number), and the mapper raises [TypeError] exactly on a code that
    cannot be hashed, before looking at anything else. *)
Theorem mapper_keeps_code c m r ra d :
  (hashable c = false → create_error_from_code fmt c m r ra d = Raise TypeError)
  ∧ (∀ e, create_error_from_code fmt c m r ra d = Ok e →
          hashable c = true ∧ py_num (code e) = py_num c).
Proof.
  split.
  - intros Hh. unfold create_error_from_code, code_in_table. by rewrite Hh.
  - intros e. apply mapped_code.
Qed.

(** X6.  The mapper never builds a [BAPInvalidRequestError], a
    [BAPInvalidParamsError] or a [BAPConnectionError]: the codes
    InvalidRequest and InvalidParams, although keys of its table, fall
    through to the plain [BAPError] that keeps every field it was given. *)
Theorem mapper_unused_classes c m r ra d :
  (∀ e, create_error_from_code fmt c m r ra d = Ok e →
        cls e ≠ K_BAPInvalidRequestError ∧ cls e ≠ K_BAPInvalidParamsError
        ∧ cls e ≠ K_BAPConnectionError)
  ∧ create_error_from_code fmt (JInt ErrorCodes.InvalidRequest) m r ra d
    = Ok (BAPError_new (JInt ErrorCodes.InvalidRequest) m r ra d)
  ∧ create_error_from_code fmt (JInt ErrorCodes.InvalidParams) m r ra d
    = Ok (BAPError_new (JInt ErrorCodes.InvalidParams) m r ra d).
Proof.
  split; [ | split; by apply generic_code ].
  intros e H.
  destruct (hashable c) eqn:Hh;
    [ | unfold create_error_from_code, code_in_table in H;
        rewrite Hh in H; discriminate ].
  rewrite create_error_from_code_hashable in H by done.
  unfold special_constructors, other_constructors in H.
  repeat match type of H with
         | context [if code_is c ?x then _ else _] => destruct (code_is c x)
         end;
    repeat match type of H with
           | context [details_get ?a ?k ?x ?y] =>
               destruct (details_get a k x y); cbn [res_bind] in H;
               [ | discriminate ]
           end;
    injection H as <-; done.
Qed.

(** X7.  Which retryable flag the mapped error carries: [True] for the
    five codes whose constructor says so, [False] for sixteen others,
    and the flag of the caller only for ElementNotFound, NavigationFailed,
    ActionFailed and the codes without a dedicated constructor. *)
Theorem mapper_retryable_policy z m r ra d e :
  create_error_from_code fmt (JInt z) m r ra d = Ok e →
  (z ∈ always_retryable → retryable e = JBool true)
  ∧ (z ∈ never_retryable → retryable e = JBool false)
  ∧ (z ∈ retryable_from_caller ∨ has_dedicated_constructor z = false →
     retryable e = r).
Proof.
  intros H. rewrite create_error_from_code_hashable in H by done.
  cbv beta iota delta [special_constructors other_constructors code_is py_num] in H.
  assert (∀ l : list Z, ∀ x, x ∈ l ↔ In x l) as Hin
    by (intros; apply list_elem_of_In).
  unfold has_dedicated_constructor, dedicated_codes, always_retryable,
    never_retryable, retryable_from_caller.
  rewrite !Hin. simpl In. simpl existsb.
  repeat match type of H with
         | context [if Z.eqb z ?x then _ else _] =>
             let E := fresh "E" in
             destruct (Z.eqb z x) eqn:E;
             [ apply Z.eqb_eq in E; subst z | apply Z.eqb_neq in E ]
         end;
    repeat match type of H with
           | context [details_get ?a ?k ?x ?y] =>
               destruct (details_get a k x y); cbn [res_bind] in H;
               [ | discriminate ]
           end;
    injection H as <-; simpl retryable;
    (split; [ | split ]); intros Hc; try reflexivity;
    exfalso; repeat (destruct Hc as [Hc | Hc]; try discriminate Hc;
                     try (symmetry in Hc; contradiction)); try contradiction.
Qed.

End Mapper.

(** X3, witness: an error object without ["data"]. *)
Lemma from_dict_total_on_wire_format_witness :
  ∃ e, from_dict Example.format
         (JObj [("code", JInt ErrorCodes.Timeout); ("message", JStr "late")])
       = Ok e.
Proof.
  apply (from_dict_total_on_wire_format Example.format
           [("code", JInt ErrorCodes.Timeout); ("message", JStr "late")]).
  - reflexivity.
  - intros v Hv. discriminate Hv.
Defined.

(** X4, witness: the error member of [error_response_null_data]. *)
Lemma from_dict_rejects_non_object_data_witness :
  from_dict Example.format
    (JObj [("code", JInt ErrorCodes.ServerError); ("message", JStr "boom");
           ("data", JNull)])
  = Raise AttributeError.
Proof.
  exact (from_dict_rejects_non_object_data Example.format
           [("code", JInt ErrorCodes.ServerError); ("message", JStr "boom");
            ("data", JNull)] JNull eq_refl eq_refl).
Defined.

(** X5, witness: a list as code, and the float -32016.0 as code. *)
Lemma mapper_keeps_code_witness :
  hashable (JList []) = false
  ∧ create_error_from_code Example.format (JList []) (JStr "m") (JBool false)
      JNull JNull = Raise TypeError
  ∧ create_error_from_code Example.format (JFloat (FFin (-32016) 0)) (JStr "m")
      (JBool false) JNull JNull = Ok (BAPTimeoutError (JStr "m") JNull)
  ∧ py_num (code (BAPTimeoutError (JStr "m") JNull))
    = py_num (JFloat (FFin (-32016) 0)).
Proof.
  split; [ reflexivity | ]. split.
  - exact (proj1 (mapper_keeps_code Example.format (JList []) (JStr "m")
                    (JBool false) JNull JNull) eq_refl).
  - split; [ reflexivity | ].
    exact (proj2 (proj2 (mapper_keeps_code Example.format
                           (JFloat (FFin (-32016) 0)) (JStr "m") (JBool false)
                           JNull JNull)
                    (BAPTimeoutError (JStr "m") JNull) eq_refl)).
Defined.

(** X6, witness: an InvalidRequest error from the wire. *)
Lemma mapper_unused_classes_witness :
  create_error_from_code Example.format (JInt ErrorCodes.InvalidRequest)
    (JStr "m") (JBool true) JNull JNull
  = Ok (BAPError_new (JInt ErrorCodes.InvalidRequest) (JStr "m") (JBool true)
          JNull JNull)
  ∧ cls (BAPError_new (JInt ErrorCodes.InvalidRequest) (JStr "m") (JBool true)
           JNull JNull) ≠ K_BAPInvalidRequestError.
Proof.
  split; [ reflexivity | ].
  exact (proj1 (proj1 (mapper_unused_classes Example.format
                         (JInt ErrorCodes.InvalidRequest) (JStr "m") (JBool true)
                         JNull JNull)
                  _ eq_refl)).
Defined.

(** X7, witness: a timeout reported as not retryable comes out
    retryable. *)
Lemma mapper_retryable_policy_witness :
  create_error_from_code Example.format (JInt ErrorCodes.Timeout) (JStr "late")
    (JBool false) JNull JNull = Ok (BAPTimeoutError (JStr "late") JNull)
  ∧ ErrorCodes.Timeout ∈ always_retryable
  ∧ retryable (BAPTimeoutError (JStr "late") JNull) = JBool true.
Proof.
  assert (ErrorCodes.Timeout ∈ always_retryable) as Hin
    by (apply list_elem_of_In; left; reflexivity).
  split; [ reflexivity | ]. split; [ exact Hin | ].
  exact (proj1 (mapper_retryable_policy Example.format ErrorCodes.Timeout
                  (JStr "late") (JBool false) JNull JNull
                  (BAPTimeoutError (JStr "late") JNull) eq_refl) Hin).
Defined.

(** X8.  [from_response] never raises on a validated error model, and
    returns what [from_dict] returns on the same error as it travels on
    the wire (absent members left out); the error it returns carries the
    model's code. *)
Theorem from_response_agrees_with_from_dict (fmt : json → string)
    (error : JSONRPCError) :
  ∃ e, from_response fmt error = Ok e
       ∧ from_dict fmt (error_wire error) = Ok e
       ∧ py_num (code e) = Some (e_code error).
Proof.
  assert (∃ e, from_response fmt error = Ok e) as [e He].
  { unfold from_response. destruct (e_data error) as [data | ].
    - apply mapper_total; [ done | ].
      destruct (d_details data); [ right; by eexists | by left ].
    - apply mapper_total; [ done | by left ]. }
  exists e. split; [ exact He | ]. split.
  - rewrite <- He. unfold from_response, from_dict, error_wire.
    destruct (e_data error) as [[r [ra | ] [dd | ]] | ]; reflexivity.
  - unfold from_response in He.
    destruct (e_data error);
      by destruct (mapped_code fmt _ _ _ _ _ _ He).
Qed.

(** ** The request dispatcher, call by call *)

Lemma issued_pending_entry w k call :
  Inv w → issued w !! k = Some call →
  is_Some (_pending_requests (client w) !! c_id call) →
  c_id call = Z.of_nat k + 1 ∧ c_future call = k ∧ c_timer call = k
  ∧ _pending_requests (client w) !! c_id call = Some (k, k)
  ∧ futures w !! k = Some FPending
  ∧ timers w !! k = Some (mkTimer (c_id call) (c_method call) Armed)
  ∧ c_sent call = true.
Proof.
  intros I Hk [[f t] HP].
  destruct (inv_issued _ _ _ _ _ _ I _ _ Hk) as (Hid & Hf & Ht).
  destruct (inv_pending _ _ _ _ _ _ I _ _ _ HP)
    as (Hrid & -> & Hfs & (tm & Htm & Harmed) & (c & Hc & Hsent)).
  assert (f = k) as -> by lia.
  rewrite Hk in Hc. injection Hc as <-.
  destruct (inv_timers _ _ _ _ _ _ I _ _ Htm) as (Htid & c' & Hc' & Hmeth).
  rewrite Hk in Hc'. injection Hc' as <-.
  repeat split; try done.
  rewrite Htm. f_equal. destruct tm as [i m s]. simpl in *. subst i m s. by rewrite Hid.
Qed.

Lemma fire_not_armed t tm w :
  timers w !! t = Some tm → t_state tm ≠ Armed → fire t w = w.
Proof.
  intros Ht Hs. unfold fire. rewrite Ht. by destruct (t_state tm).
Qed.

Section Dispatcher.
Context (rt : Runtime).

(** What [_handle_response] does with a response whose id selects the
    entry of a call. *)
Lemma response_for_pending w k call d id :
  Inv w → issued w !! k = Some call →
  is_Some (_pending_requests (client w) !! c_id call) →
  dict_get "id" d = Some id → py_num id = Some (c_id call) →
  let w1 := cancel (c_timer call) (pop_pending (c_id call) w) in
  is_done (c_future call) w1 = false
  ∧ timers w1
    = <[k := mkTimer (c_id call) (c_method call) Cancelled]> (timers w)
  ∧ _handle_response rt (JObj d) w
    = match is_error_response (JObj d) with
      | Raise e => (w1, Raise e)
      | Ok true =>
          match from_dict (py_format rt) (default JNull (dict_get "error" d)) with
          | Raise e => (w1, Raise e)
          | Ok error => (settle (c_future call) (FException error) w1, Ok ())
          end
      | Ok false =>
          (settle (c_future call)
             (FResult (default JNull (dict_get "result" d))) w1, Ok ())
      end.
Proof.
  intros I Hk HP Hid Hnum w1.
  destruct (issued_pending_entry w k call I Hk HP)
    as (Hcid & Hf & Ht & HPk & Hfs & Hts & Hsent).
  assert (is_done (c_future call) w1 = false) as Hnd.
  { subst w1. rewrite cancel_is_done. unfold is_done, pop_pending. simpl.
    by rewrite Hf, Hfs. }
  split; [ exact Hnd | ]. split.
  - subst w1. rewrite Ht.
    rewrite (cancel_armed k (mkTimer (c_id call) (c_method call) Armed)); done.
  - unfold _handle_response. simpl py_get. rewrite Hid. simpl default.
    assert (hashable id = true) as -> by (by destruct id).
    simpl negb. cbv iota.
    unfold lookup_pending. rewrite Hnum, HPk.
    subst w1. rewrite Hf, Ht in *. rewrite Hnd.
    destruct (is_error_response (JObj d)) as [[ | ] | ]; reflexivity.
Qed.

(** X9.  A request whose send fails leaves no trace in the dispatcher:
    the transport's exception goes to the caller, the pending table is
    what it was, nothing was written, nothing was settled, and the timer
    created for the call is cancelled; only the id counter has
    advanced. *)
Theorem request_send_failure_cleans_up (w : World) (method : string)
    (params : json) (written : bool) (e : builtin_exn) :
  reachable rt w →
  Transport.send written (_transport (client w)) = Raise e →
  let w' := (_request method params written w).1 in
  (_request method params written w).2 = Raise (Builtin e)
  ∧ _pending_requests (client w') = _pending_requests (client w)
  ∧ _request_id (client w') = _request_id (client w) + 1
  ∧ sent w' = sent w
  ∧ settled w' = settled w
  ∧ futures w' = futures w ++ [FPending]
  ∧ timers w'
    = timers w ++ [mkTimer (_request_id (client w) + 1) method Cancelled].
Proof.
  intros I%reachable_Inv Hsend. unfold _request, transport_send. simpl.
  rewrite Hsend. simpl. unfold cleanup. simpl. rewrite lookup_insert_eq.
  rewrite (cancel_armed _ (mkTimer (_request_id (client w) + 1) method Armed));
    [ | by simpl; rewrite lookup_app_r, Nat.sub_diag by lia | done ].
  simpl. repeat split.
  - rewrite delete_insert_eq. apply delete_id. eapply fresh_key_free. exact I.
  - replace (length (timers w)) with (length (timers w) + 0)%nat at 1 by lia.
    by rewrite insert_app_r.
Qed.

(** X10.  A response that [is_error_response] does not take for an
    error, and whose id is equal to the id of a pending call, resolves
    that call with the response's ["result"] member ([None] when there is
    none): the entry leaves the table, the timer is cancelled, so that
    its firing later changes nothing, and the future has been settled
    exactly once. *)
Theorem response_resolves_call (w : World) (k : nat) (call : Call)
    (d : dict) (id : json) :
  reachable rt w →
  issued w !! k = Some call →
  is_Some (_pending_requests (client w) !! c_id call) →
  dict_get "id" d = Some id → py_num id = Some (c_id call) →
  is_error_response (JObj d) = Ok false →
  let w' := (_handle_response rt (JObj d) w).1 in
  (_handle_response rt (JObj d) w).2 = Ok ()
  ∧ futures w' !! c_future call
    = Some (FResult (default JNull (dict_get "result" d)))
  ∧ _pending_requests (client w')
    = delete (c_id call) (_pending_requests (client w))
  ∧ timers w' !! c_timer call
    = Some (mkTimer (c_id call) (c_method call) Cancelled)
  ∧ fire (c_timer call) w' = w'
  ∧ settle_count (c_future call) w' = 1%nat.
Proof.
  intros I%reachable_Inv Hk HP Hid Hnum Herr w'.
  destruct (issued_pending_entry w k call I Hk HP)
    as (Hcid & Hf & Ht & HPk & Hfs & Hts & Hsent).
  destruct (response_for_pending w k call d id I Hk HP Hid Hnum)
    as (Hnd & Htm & Heq).
  pose proof (proj1 (_handle_response_Inv rt (JObj d) w I)) as I'.
  fold w' in I'. subst w'. rewrite Heq, Herr in *. simpl in *.
  autorewrite with frame.
  assert (<[k := mkTimer (c_id call) (c_method call) Cancelled]> (timers w)
            !! c_timer call
          = Some (mkTimer (c_id call) (c_method call) Cancelled)) as Hlk.
  { rewrite Ht. apply list_lookup_insert_eq. by apply lookup_lt_Some in Hts. }
  assert (<[c_future call := FResult (default JNull (dict_get "result" d))]>
            (futures w) !! c_future call
          = Some (FResult (default JNull (dict_get "result" d)))) as Hfl.
  { apply list_lookup_insert_eq. rewrite Hf. by apply lookup_lt_Some in Hfs. }
  split; [ done | ]. split; [ exact Hfl | ]. split; [ done | ].
  split; [ by rewrite Htm | ]. split.
  - apply (fire_not_armed _ (mkTimer (c_id call) (c_method call) Cancelled));
      [ | done ]. simpl. rewrite Htm. exact Hlk.
  - rewrite (settle_count_Inv _ _ I'). unfold is_done. simpl.
    autorewrite with frame. simpl. by rewrite Hfl.
Qed.

(** X11.  An error response for a pending call, whose error object the
    mapper accepts, rejects that call with the mapped error, which
    carries the code of the envelope; the entry leaves the table, the
    timer is cancelled and the future has been settled exactly once. *)
Theorem error_response_rejects_call (w : World) (k : nat) (call : Call)
    (d : dict) (id : json) (err : BAPError) :
  reachable rt w →
  issued w !! k = Some call →
  is_Some (_pending_requests (client w) !! c_id call) →
  dict_get "id" d = Some id → py_num id = Some (c_id call) →
  is_error_response (JObj d) = Ok true →
  from_dict (py_format rt) (default JNull (dict_get "error" d)) = Ok err →
  let w' := (_handle_response rt (JObj d) w).1 in
  (_handle_response rt (JObj d) w).2 = Ok ()
  ∧ futures w' !! c_future call = Some (FException err)
  ∧ (∃ e, dict_get "error" d = Some (JObj e)
          ∧ py_num (code err) = py_num (default JNull (dict_get "code" e)))
  ∧ _pending_requests (client w')
    = delete (c_id call) (_pending_requests (client w))
  ∧ timers w' !! c_timer call
    = Some (mkTimer (c_id call) (c_method call) Cancelled)
  ∧ fire (c_timer call) w' = w'
  ∧ settle_count (c_future call) w' = 1%nat.
Proof.
  intros I%reachable_Inv Hk HP Hid Hnum Herr Hmap w'.
  destruct (issued_pending_entry w k call I Hk HP)
    as (Hcid & Hf & Ht & HPk & Hfs & Hts & Hsent).
  destruct (response_for_pending w k call d id I Hk HP Hid Hnum)
    as (Hnd & Htm & Heq).
  pose proof (proj1 (_handle_response_Inv rt (JObj d) w I)) as I'.
  fold w' in I'. subst w'. rewrite Heq, Herr, Hmap in *. simpl in *.
  autorewrite with frame.
  assert (<[k := mkTimer (c_id call) (c_method call) Cancelled]> (timers w)
            !! c_timer call
          = Some (mkTimer (c_id call) (c_method call) Cancelled)) as Hlk.
  { rewrite Ht. apply list_lookup_insert_eq. by apply lookup_lt_Some in Hts. }
  assert (<[c_future call := FException err]> (futures w) !! c_future call
          = Some (FException err)) as Hfl.
  { apply list_lookup_insert_eq. rewrite Hf. by apply lookup_lt_Some in Hfs. }
  split; [ done | ]. split; [ exact Hfl | ]. split.
  { unfold is_error_response in Herr. simpl in Herr.
    destruct (dict_has "error" d); [ | discriminate ]. simpl in Herr.
    destruct (dict_get "error" d) as [[ | | | | | | e] | ];
      simpl in Herr; try discriminate.
    exists e. split; [ done | ].
    unfold from_dict in Hmap. simpl py_get in Hmap. cbn [res_bind default] in Hmap.
    destruct (py_get (default (JObj []) (dict_get "data" e)) "retryable" (JBool false))
      as [r | ]; [ | discriminate ].
    cbn [res_bind] in Hmap.
    destruct (py_get (default (JObj []) (dict_get "data" e)) "retryAfterMs" JNull)
      as [ra | ]; [ | discriminate ].
    cbn [res_bind] in Hmap.
    destruct (py_get (default (JObj []) (dict_get "data" e)) "details" JNull)
      as [dt | ]; [ | discriminate ].
    cbn [res_bind] in Hmap.
    destruct (dict_get "code" e) as [c | ]; simpl in Herr |- *.
    - by destruct (mapped_code _ _ _ _ _ _ _ Hmap).
    - discriminate. }
  split; [ done | ].
  split; [ by rewrite Htm | ]. split.
  - apply (fire_not_armed _ (mkTimer (c_id call) (c_method call) Cancelled));
      [ | done ]. simpl. rewrite Htm. exact Hlk.
  - rewrite (settle_count_Inv _ _ I'). unfold is_done. simpl.
    autorewrite with frame. simpl. by rewrite Hfl.
Qed.

End Dispatcher.

(** ** Exceptions of the inbound path *)

Section Inbound.
Context (rt : Runtime).

Lemma details_get_raises details k dflt other e :
  details_get details k dflt other = Raise e → e = AttributeError.
Proof.
  unfold details_get. destruct (truthy details); [ | discriminate ].
  destruct details; simpl; congruence.
Qed.

Lemma mapper_raises_attribute_error fmt c m r ra d e :
  hashable c = true →
  create_error_from_code fmt c m r ra d = Raise e → e = AttributeError.
Proof.
  intros Hh H. rewrite create_error_from_code_hashable in H by done.
  unfold special_constructors, other_constructors in H.
  repeat match type of H with
         | context [if code_is c ?x then _ else _] => destruct (code_is c x)
         end;
    repeat match type of H with
           | context [details_get ?a ?k ?x ?y] =>
               let E := fresh "E" in
               destruct (details_get a k x y) eqn:E; cbn [res_bind] in H;
               [ | injection H as <-; by apply details_get_raises in E ]
           end;
    discriminate.
Qed.

Lemma guarded_error_raises fmt d e :
  is_error_response (JObj d) = Ok true →
  from_dict fmt (default JNull (dict_get "error" d)) = Raise e →
  e = AttributeError.
Proof.
  intros Herr Hmap.
  unfold is_error_response in Herr. simpl in Herr.
  destruct (dict_has "error" d); [ | discriminate ]. simpl in Herr.
  destruct (dict_get "error" d) as [[ | | | | | | er] | ];
    simpl in Herr; try discriminate.
  injection Herr as Hc. apply andb_true_iff in Hc as [Hc _].
  unfold from_dict in Hmap. simpl py_get in Hmap. cbn [res_bind default] in Hmap.
  destruct (default (JObj []) (dict_get "data" er)) as [ | | | | | | dd];
    simpl in Hmap; try congruence.
  eapply mapper_raises_attribute_error; [ | exact Hmap ].
  destruct (dict_get "code" er) as [[ | | | | | | ] | ]; simpl in Hc |- *; done.
Qed.

(** X12.  [_handle_response] lets an exception out in two cases only:
    [TypeError], when the id of the response cannot be hashed, and then
    the client is as it was; [AttributeError], when the response is an
    error envelope for a pending call and the mapper cannot read the
    error object. *)
Theorem handle_response_exceptions (d : dict) (w : World) (e : builtin_exn) :
  (_handle_response rt (JObj d) w).2 = Raise e →
  (e = TypeError
   ∧ hashable (default JNull (dict_get "id" d)) = false
   ∧ (_handle_response rt (JObj d) w).1 = w)
  ∨ (e = AttributeError
     ∧ is_error_response (JObj d) = Ok true
     ∧ is_Some (lookup_pending (default JNull (dict_get "id" d)) w)).
Proof.
  intros H.
  assert (py_get (JObj d) "id" JNull = Ok (default JNull (dict_get "id" d)))
    as Hget by reflexivity.
  unfold _handle_response in *. rewrite Hget in *. clear Hget.
  destruct (hashable (default JNull (dict_get "id" d))) eqn:Hh;
    cbn [negb] in *; cbv iota in *.
  - right.
    destruct (lookup_pending _ w) as [[k [f t]] | ]; [ | discriminate ].
    destruct (is_done f _); [ discriminate | ].
    destruct (is_error_response_obj d) as [b Hb]. rewrite Hb in *.
    destruct b; [ | discriminate ].
    change (py_get (JObj d) "error" JNull)
      with (Ok (E := builtin_exn) (default JNull (dict_get "error" d))) in H.
    cbn [res_bind] in H.
    destruct (from_dict (py_format rt) (default JNull (dict_get "error" d)))
      eqn:Hmap; [ discriminate | ].
    simpl in H. injection H as <-. split; [ | by split ].
    by eapply guarded_error_raises.
  - left. simpl in H. injection H as <-. done.
Qed.


End Inbound.

(** ** Routing of notifications *)

Lemma str_split_nonempty sep s : str_split sep s ≠ [].
Proof.
  destruct s as [ | c s]; simpl; [ done | ].
  destruct (Ascii.eqb c sep); [ done | ].
  by destruct (str_split sep s).
Qed.

Lemma prefix_event m :
  String.prefix "event/" m = true → ∃ rest, m = String.append "event/" rest.
Proof.
  intros H.
  do 6 (destruct m as [ | ? m]; [ discriminate H | ];
        simpl in H;
        match type of H with
        | (if ?c then _ else _) = true =>
            destruct c as [<- | ]; [ | discriminate H ]
        end).
  by exists m.
Qed.


Lemma str_split_event rest :
  str_split "/" (String.append "event/" rest) = "event" :: str_split "/" rest.
Proof. reflexivity. Qed.





Section Routing.
Context (rt : Runtime).

(** X14.  When [_handle_notification] raises, no callback has been
    invoked and nothing has changed, and it raises in two cases only:
    [ValidationError], for one of the three reserved methods whose
    [params] fail validation, and [AttributeError], when the ["method"]
    member is not a string.  A method that starts with ["event/"] never
    makes the split fail. *)
Theorem notification_exceptions (d : dict) (w : World) (e : builtin_exn) :
  (_handle_notification rt (JObj d) w).2 = Raise e →
  (_handle_notification rt (JObj d) w).1 = w
  ∧ ((e = ValidationError
      ∧ ∃ m, dict_get "method" d = Some (JStr m) ∧ m ∈ reserved_methods)
     ∨ (e = AttributeError
        ∧ ∃ v, dict_get "method" d = Some v ∧ isinstance_str v = false)).
Proof.
  unfold _handle_notification, dispatch_model. simpl py_get. cbv iota.
  destruct (dict_get "method" d) as [v | ] eqn:Hm; simpl default.
  2: { simpl. destruct (_event_handlers (client w) !! ""); discriminate. }
  destruct (method_is v "stream/chunk") eqn:E1.
  { destruct v as [ | | | | m | | ]; try discriminate E1.
    apply String.eqb_eq in E1 as ->.
    destruct (model_validate rt StreamChunkParams _); simpl; [ discriminate | ].
    intros [= <-]. split; [ done | ]. left. split; [ done | ].
    eexists. split; [ done | ]. unfold reserved_methods. set_solver. }
  destruct (method_is v "stream/end") eqn:E2.
  { destruct v as [ | | | | m | | ]; try discriminate E2.
    apply String.eqb_eq in E2 as ->.
    destruct (model_validate rt StreamEndParams _); simpl; [ discriminate | ].
    intros [= <-]. split; [ done | ]. left. split; [ done | ].
    eexists. split; [ done | ]. unfold reserved_methods. set_solver. }
  destruct (method_is v "approval/required") eqn:E3.
  { destruct v as [ | | | | m | | ]; try discriminate E3.
    apply String.eqb_eq in E3 as ->.
    destruct (model_validate rt ApprovalRequiredParams _); simpl; [ discriminate | ].
    intros [= <-]. split; [ done | ]. left. split; [ done | ].
    eexists. split; [ done | ]. unfold reserved_methods. set_solver. }
  destruct v as [ | | | | m | | ];
    try (simpl; intros [= <-]; split; [ done | ]; right; split; [ done | ];
         eexists; by split).
  destruct (String.prefix "event/" m) eqn:Hp.
  - apply prefix_event in Hp as [rest ->]. rewrite str_split_event.
    destruct (str_split "/" rest) as [ | x t] eqn:Hs;
      [ by apply str_split_nonempty in Hs | ].
    simpl. destruct (_event_handlers (client w) !! x); discriminate.
  - destruct (_event_handlers (client w) !! m); discriminate.
Qed.



(** X17.  A frame that parses as JSON but is not an object is never
    dispatched and changes nothing: a number, a boolean or [null] makes
    the membership test raise [TypeError]; a string or a list is dropped,
    unless it contains ["id"] or ["method"], and then [AttributeError] is
    raised.  In the receive loop the exception goes to the error
    handlers and then ends reception with the close handlers. *)
Theorem non_object_frame_not_dispatched (v : json) (w : World) :
  isinstance_dict v = false →
  _handle_message rt (Some v) w
  = (w, match py_contains "id" v, py_contains "method" v with
        | Ok false, Ok false => Ok ()
        | Ok _, Ok _ => Raise AttributeError
        | _, _ => Raise TypeError
        end)
  ∧ (∀ e, (_handle_message rt (Some v) w).2 = Raise e →
          deliver rt (Some v) w = _handle_close (_handle_error e w)).
Proof.
  intros Hv.
  assert (_handle_message rt (Some v) w
          = (w, match py_contains "id" v, py_contains "method" v with
                | Ok false, Ok false => Ok ()
                | Ok _, Ok _ => Raise AttributeError
                | _, _ => Raise TypeError
                end)) as H.
  { unfold _handle_message, _handle_response, _handle_notification.
    destruct v as [ | | | | s | l | ]; try discriminate Hv; try reflexivity.
    - simpl. destruct (str_contains "id" s); [ reflexivity | ].
      destruct (str_contains "method" s); reflexivity.
    - simpl.
      destruct (existsb _ l); [ reflexivity | ].
      destruct (existsb _ l); reflexivity. }
  split; [ exact H | ].
  intros e He. unfold deliver. rewrite H in *. simpl in He. by rewrite He.
Qed.

End Routing.

(** ** What the client never changes *)

Lemma same_configuration_refl c : same_configuration c c.
Proof. by repeat split. Qed.

Lemma same_configuration_trans c1 c2 c3 :
  same_configuration c1 c2 → same_configuration c2 c3 → same_configuration c1 c3.
Proof.
  intros (? & ? & ? & ?) (? & ? & ? & ?). repeat split; congruence.
Qed.

Lemma same_configuration_eq c c' : c' = c → same_configuration c c'.
Proof. intros ->. apply same_configuration_refl. Qed.

Lemma call_handlers_client label hs arg w :
  client (call_handlers label hs arg w) = client w.
Proof. by destruct (call_handlers_spec label hs arg w) as (_ & _ & Hc & _). Qed.

Lemma cleanup_configuration rid w :
  same_configuration (client w) (client (cleanup rid w)).
Proof.
  unfold cleanup. destruct (_ !! rid) as [[f t] | ];
    [ | apply same_configuration_refl ].
  rewrite cancel_client. by repeat split.
Qed.

Lemma _request_configuration method params written w :
  same_configuration (client w) (client (_request method params written w).1).
Proof.
  unfold _request, transport_send. simpl.
  destruct (Transport.send written (_transport (client w))); simpl.
  - by repeat split.
  - eapply same_configuration_trans; [ | apply cleanup_configuration ].
    by repeat split.
Qed.

Lemma connect_config accepted t :
  Transport.config (Transport.connect accepted t).1.1 = Transport.config t.
Proof. unfold Transport.connect. by destruct accepted. Qed.

Section Configuration.
Context (rt : Runtime).

Lemma _handle_response_configuration data w :
  same_configuration (client w) (client (_handle_response rt data w).1).
Proof.
  unfold _handle_response.
  repeat match goal with
         | |- context [match ?x with _ => _ end] => destruct x; simpl
         end;
    autorewrite with frame; by repeat split.
Qed.

Lemma _handle_notification_client data w :
  client (_handle_notification rt data w).1 = client w.
Proof.
  unfold _handle_notification, dispatch_model.
  repeat match goal with
         | |- context [match ?x with _ => _ end] => destruct x; simpl
         end;
    rewrite ?call_handlers_client; done.
Qed.

Lemma deliver_configuration parsed w :
  same_configuration (client w) (client (deliver rt parsed w)).
Proof.
  assert (same_configuration (client w) (client (_handle_message rt parsed w).1))
    as H.
  { unfold _handle_message. destruct parsed as [data | ];
      [ | apply same_configuration_refl ].
    destruct (py_contains "id" data) as [[ | ] | ]; simpl;
      [ apply _handle_response_configuration | | apply same_configuration_refl ].
    destruct (py_contains "method" data) as [[ | ] | ]; simpl;
      [ | apply same_configuration_refl .. ].
    apply same_configuration_eq, _handle_notification_client. }
  unfold deliver. destruct (_handle_message rt parsed w) as [w1 [ | e]]; [ done | ].
  unfold _handle_close, _handle_error. by rewrite !call_handlers_client.
Qed.

Lemma fire_configuration t w : same_configuration (client w) (client (fire t w)).
Proof.
  unfold fire. destruct (timers w !! t) as [tm | ];
    [ | apply same_configuration_refl ].
  destruct (t_state tm); try apply same_configuration_refl.
  unfold on_timeout. simpl.
  destruct (_ !! t_request_id tm) as [[f t'] | ];
    [ | apply same_configuration_refl ].
  destruct (is_done f _); by repeat split.
Qed.

Lemma _request_await_configuration call w w1 r :
  _request_await call w = Some (w1, r) →
  same_configuration (client w) (client w1).
Proof.
  unfold _request_await. destruct (futures w !! c_future call) as [[ | v | e] | ];
    intros [= <- <-]; [ apply same_configuration_refl | ].
  apply cleanup_configuration.
Qed.

Lemma close_begin_configuration written w :
  same_configuration (client w) (client (close_begin written w).1).
Proof.
  unfold close_begin. destruct (_initialized (client w));
    [ | apply same_configuration_refl ].
  pose proof (_request_configuration "shutdown"
                (JObj [("saveState", JBool false); ("closePages", JBool true)])
                written w) as H.
  by destruct (_request _ _ _ _).
Qed.

Lemma close_tail_configuration w :
  same_configuration (client w) (client (close_tail w)).
Proof.
  unfold close_tail. simpl. rewrite reject_pending_client. by repeat split.
Qed.

Lemma connect_begin_configuration accepted written w :
  same_configuration (client w) (client (connect_begin accepted written w).1).
Proof.
  unfold connect_begin.
  pose proof (connect_config accepted (_transport (client w))) as Hc.
  destruct (Transport.connect accepted (_transport (client w)))
    as [[t evs] [ | e]]; simpl in Hc.
  - eapply same_configuration_trans; [ | apply _request_configuration ].
    by repeat split.
  - simpl. destruct (Transport.on_error (Transport.config t)).
    + unfold _handle_error. rewrite call_handlers_client. by repeat split.
    + by repeat split.
Qed.

Lemma connect_resume_configuration result notified written w :
  same_configuration (client w)
    (client (connect_resume rt result notified written w).1).
Proof.
  unfold connect_resume.
  destruct (check_version rt result) as [older | ];
    [ | apply same_configuration_refl ].
  destruct (py_get result "capabilities" JNull) as [caps | ]; simpl;
    [ | destruct older; apply same_configuration_refl ].
  unfold _notify, transport_send. simpl.
  assert (_transport (client (if older
            then log (LogWarning "Server protocol version is older than client"
                        result) w
            else w)) = _transport (client w)) as -> by (by destruct older).
  destruct (Transport.send notified (_transport (client w))); simpl;
    [ | by destruct older; repeat split ].
  assert (_events (client (if older
            then log (LogWarning "Server protocol version is older than client"
                        result) w
            else w)) = _events (client w)) as -> by (by destruct older).
  destruct (_events (client w)) as [ | ev evs] eqn:Hev;
    [ by destruct older; repeat split | ].
  match goal with
  | |- context [_request ?m ?p ?wr ?w0] =>
      pose proof (_request_configuration m p wr w0) as H;
      destruct (_request m p wr w0) as [w4 [call | e]]
  end; simpl in *;
    (eapply same_configuration_trans; [ | exact H ]);
    by destruct older; repeat split.
Qed.

Lemma step_configuration e w :
  same_configuration (client w) (client (step rt e w)).
Proof.
  destruct e; simpl.
  - apply _request_configuration.
  - apply deliver_configuration.
  - apply fire_configuration.
  - destruct (issued w !! k) as [call | ]; [ | apply same_configuration_refl ].
    destruct (_request_await call w) as [[w1 r] | ] eqn:E;
      [ | apply same_configuration_refl ].
    by eapply _request_await_configuration.
  - apply close_begin_configuration.
  - apply close_tail_configuration.
  - apply connect_begin_configuration.
  - destruct (issued w !! k) as [call | ]; [ | apply same_configuration_refl ].
    destruct (_request_await call w) as [[w1 [result | err]] | ] eqn:E;
      [ | | apply same_configuration_refl ].
    + eapply same_configuration_trans;
        [ by eapply _request_await_configuration
        | apply connect_resume_configuration ].
    + by eapply _request_await_configuration.
  - by repeat split.
  - by repeat split.
  - by repeat split.
  - by repeat split.
  - by repeat split.
Qed.

Lemma run_configuration evs w :
  same_configuration (client w) (client (run rt evs w)).
Proof.
  revert w. induction evs as [ | e evs IH]; intros w.
  - apply same_configuration_refl.
  - simpl. eapply same_configuration_trans; [ apply step_configuration | apply IH ].
Qed.

Lemma reachable_events w : reachable rt w → _events (client w) ≠ [].
Proof.
  intros (url & name & version & events & evs & ->).
  destruct (run_configuration evs (BAPClient__init__ url name version events))
    as (_ & _ & -> & _).
  simpl. by destruct events.
Qed.

(** X18.  Whatever happens to a client, the name, the version and the
    event list given to its constructor, and the configuration of its
    transport (URL, reconnect settings, the three callbacks the client
    installed) stay what they were; the event list is never empty, an
    empty one having been replaced by the default at construction.  (The
    constructor is the one embedded above: no token is appended to the
    URL.) *)
Theorem configuration_never_changes (evs : list Event) (w : World) :
  (let c := client w in
   let c' := client (run rt evs w) in
   _name c' = _name c ∧ _version c' = _version c ∧ _events c' = _events c
   ∧ Transport.config (_transport c') = Transport.config (_transport c))
  ∧ (∀ url name version events,
       let c := client (run rt evs (BAPClient__init__ url name version events)) in
       _events c = (if decide (events = [])
                    then ["page"; "console"; "network"; "dialog"] else events)
       ∧ _events c ≠ []
       ∧ Transport.url (Transport.config (_transport c)) = url
       ∧ Transport.auto_reconnect (Transport.config (_transport c)) = false
       ∧ Transport.on_message (Transport.config (_transport c)) = true
       ∧ Transport.on_close (Transport.config (_transport c)) = true
       ∧ Transport.on_error (Transport.config (_transport c)) = true).
Proof.
  split; [ exact (run_configuration evs w) | ].
  intros url name version events.
  destruct (run_configuration evs (BAPClient__init__ url name version events))
    as (_ & _ & He & Ht).
  simpl. rewrite He, Ht. simpl.
  destruct events; case_decide; done.
Qed.

End Configuration.

(** ** The handshake *)

Section Handshake.
Context (rt : Runtime).

Lemma client_parts :
  py_int rt "0" = Some 0 → py_int rt "2" = Some 2 →
  parse_ints rt (str_split "." BAP_VERSION) = Ok [0; 2; 0].
Proof.
  intros H0 H2. change (str_split "." BAP_VERSION) with ["0"; "2"; "0"].
  simpl. by rewrite H0, H2.
Qed.



(** X20.  Once the version check passes on a connected client,
    [connect()] marks the client initialized, stores the server's
    capabilities, writes the initialized notification and then the
    events/subscribe request, in that order, and waits for the answer to
    the latter; the subscription is always requested, the event list
    never being empty.  An older server costs one warning. *)
Theorem connect_completes_handshake (w : World) (r : dict) (older : bool) :
  reachable rt w →
  Transport.is_connected (_transport (client w)) = true →
  check_version rt (JObj r) = Ok older →
  ∃ w' call,
    connect_resume rt (JObj r) true true w = (w', Ok (Some call))
    ∧ _initialized (client w') = true
    ∧ _server_capabilities (client w') = default JNull (dict_get "capabilities" r)
    ∧ sent w'
      = sent w
        ++ [create_notification "notifications/initialized" None;
            create_request (JInt (c_id call)) "events/subscribe"
              (Some (JObj [("events", JList (JStr <$> _events (client w)))]))]
    ∧ c_id call = _request_id (client w) + 1
    ∧ c_method call = "events/subscribe"
    ∧ _pending_requests (client w') !! c_id call
      = Some (c_future call, c_timer call)
    ∧ futures w' !! c_future call = Some FPending
    ∧ logged w'
      = logged w
        ++ (if older
            then [LogWarning "Server protocol version is older than client"
                    (JObj r)]
            else []).
Proof.
  intros Hr Hconn Hv.
  pose proof (reachable_events rt w Hr) as Hev.
  unfold connect_resume. rewrite Hv. simpl py_get. cbv iota.
  unfold _notify, transport_send, Transport.send.
  unfold Transport.is_connected in Hconn.
  destruct (Transport._ws (_transport (client w))) eqn:Hws; try discriminate.
  destruct (_events (client w)) as [ | ev evs] eqn:He; [ done | ].
  destruct older; simpl; rewrite Hws; simpl; rewrite He; simpl;
    unfold _request, transport_send, Transport.send; simpl; rewrite Hws; simpl;
    do 2 eexists; (split; [ reflexivity | ]); simpl;
    rewrite lookup_insert_eq, ?app_nil_r, <- ?app_assoc;
    repeat split; try done;
    by rewrite lookup_app_r, Nat.sub_diag by lia.
Qed.

Lemma close_tail_client w :
  client (close_tail w)
  = set_pending ∅
      (set_session false JNull
         (set_transport (Transport.close (_transport (client w))) (client w))).
Proof. unfold close_tail. simpl. by rewrite reject_pending_client. Qed.

Lemma close_tail_sent w : sent (close_tail w) = sent w.
Proof.
  unfold close_tail. simpl.
  by destruct (reject_pending_frame
                 (map_to_list (_pending_requests (client w)))
                 (with_client (set_session false JNull)
                    (with_client
                       (λ c, set_transport (Transport.close (_transport c)) c) w)))
    as (_ & -> & _).
Qed.

(** X21.  Closing a client twice is harmless: after [close()] the client
    is not initialized, so a second [close()] sends no shutdown request,
    and what it does after that leaves the client exactly as the first
    [close()] left it. *)
Theorem close_twice_harmless (w : World) (written : bool) :
  close_begin written (close_tail w) = (close_tail w, None)
  ∧ close_tail (close_tail w) = close_tail w.
Proof.
  split.
  - unfold close_begin. by rewrite close_tail_client.
  - unfold close_tail at 1. cbn [with_client client].
    rewrite close_tail_client. simpl _pending_requests.
    rewrite map_to_list_empty. simpl.
    pose proof (close_tail_client w) as Hc.
    destruct (close_tail w) as [c fs ts cs ss se iv lg]. simpl in Hc.
    unfold with_client. simpl. f_equal. by subst c.
Qed.

(** X22.  After [close()] every request and every notification is
    refused with the transport's "WebSocket not connected": nothing is
    written and the pending table stays empty. *)
Theorem request_after_close_refused (w : World) (method : string)
    (params : json) (written : bool) :
  let w1 := close_tail w in
  (_request method params written w1).2
  = Raise (Builtin (PlainException "WebSocket not connected"))
  ∧ sent (_request method params written w1).1 = sent w
  ∧ _pending_requests (client (_request method params written w1).1) = ∅
  ∧ settled (_request method params written w1).1 = settled w1
  ∧ _notify method written w1
    = (w1, Raise (Builtin (PlainException "WebSocket not connected"))).
Proof.
  intros w1.
  assert (sent w1 = sent w) as Hs by apply close_tail_sent.
  assert (Transport._ws (_transport (client w1)) = Transport.WsNone) as Hws
    by (subst w1; by rewrite close_tail_client).
  assert (_pending_requests (client w1) = ∅) as HP
    by (subst w1; by rewrite close_tail_client).
  clearbody w1.
  unfold _request, _notify, transport_send, Transport.send. simpl.
  rewrite Hws. simpl.
  unfold cleanup. simpl. rewrite lookup_insert_eq.
  autorewrite with frame. simpl.
  rewrite delete_insert_eq, HP, delete_empty.
  repeat split; done.
Qed.

End Handshake.

(** ** The pending table in every reachable world *)


(** ** Subscribing and unsubscribing *)

Lemma list_remove_absent h l :
  (∀ g, g ∈ l → h_id g ≠ h_id h) → list_remove h l = None.
Proof.
  induction l as [ | x l IH]; intros H; simpl; [ done | ].
  destruct (Nat.eqb_spec (h_id x) (h_id h)) as [E | _].
  - destruct (H x); [ left | done ].
  - rewrite IH; [ done | ]. intros g Hg. apply H. by right.
Qed.

Lemma list_remove_first h l1 h0 l2 :
  (∀ g, g ∈ l1 → h_id g ≠ h_id h) → h_id h0 = h_id h →
  list_remove h (l1 ++ h0 :: l2) = Some (l1 ++ l2).
Proof.
  induction l1 as [ | x l1 IH]; intros H E; simpl.
  - by rewrite E, Nat.eqb_refl.
  - destruct (Nat.eqb_spec (h_id x) (h_id h)) as [E' | _].
    + destruct (H x); [ left | done ].
    + rewrite IH; [ done | | done ]. intros g Hg. apply H. by right.
Qed.

Lemma list_remove_snoc h l :
  (∀ g, g ∈ l → h_id g ≠ h_id h) → list_remove h (l ++ [h]) = Some l.
Proof.
  intros H. rewrite (list_remove_first h l h []) by done. by rewrite app_nil_r.
Qed.

Lemma handlers_of_on event h ev w :
  handlers_of ev (on event h w)
  = if decide (ev = event) then handlers_of event w ++ [h] else handlers_of ev w.
Proof.
  unfold handlers_of, on. simpl. case_decide as E.
  - subst ev. by rewrite lookup_insert_eq.
  - by rewrite lookup_insert_ne.
Qed.

(** X24.  Calling the function [on(event, handler)] returned takes the
    handler out again: when the handler was not registered for the event
    before, every event type has the callbacks it had before [on], and
    the stream and approval handlers are untouched.  Calling the
    function a second time raises [ValueError] and changes nothing.  The
    same holds for [on_stream_chunk]. *)
Theorem unsubscribe_undoes_on (event : string) (h : Handler) (w : World) :
  ((∀ g, g ∈ handlers_of event w → h_id g ≠ h_id h) →
   ∃ w', unsubscribe event h (on event h w) = (w', Ok ())
         ∧ (∀ ev, handlers_of ev w' = handlers_of ev w)
         ∧ _stream_chunk_handlers (client w') = _stream_chunk_handlers (client w)
         ∧ _stream_end_handlers (client w') = _stream_end_handlers (client w)
         ∧ _approval_handlers (client w') = _approval_handlers (client w)
         ∧ unsubscribe event h w' = (w', Raise RemoveValueError))
  ∧ ((∀ g, g ∈ _stream_chunk_handlers (client w) → h_id g ≠ h_id h) →
     ∃ w', unsubscribe_stream_chunk h (on_stream_chunk h w) = (w', Ok ())
           ∧ _stream_chunk_handlers (client w') = _stream_chunk_handlers (client w)
           ∧ _event_handlers (client w') = _event_handlers (client w)
           ∧ unsubscribe_stream_chunk h w' = (w', Raise RemoveValueError)).
Proof.
  split; intros Hnew.
  - unfold unsubscribe at 1. unfold on at 1. simpl. rewrite lookup_insert_eq.
    fold (handlers_of event w).
    rewrite list_remove_snoc by done.
    eexists. split; [ reflexivity | ]. simpl. split; [ | split; [ done | ] ].
    + intros ev. unfold handlers_of. simpl.
      destruct (decide (ev = event)) as [-> | E].
      * by rewrite lookup_insert_eq.
      * by rewrite !lookup_insert_ne by done.
    + split; [ done | ]. split; [ done | ].
      unfold unsubscribe. simpl. rewrite lookup_insert_eq.
      by rewrite list_remove_absent.
  - unfold unsubscribe_stream_chunk at 1. unfold on_stream_chunk at 1. simpl.
    rewrite list_remove_snoc by done.
    eexists. split; [ reflexivity | ]. simpl. split; [ done | ]. split; [ done | ].
    unfold unsubscribe_stream_chunk. simpl. by rewrite list_remove_absent.
Qed.

(** X25.  The unsubscribe function removes the earliest registration of
    its handler, not the one it was returned for: when the handler was
    already registered for the event, registering it again and calling
    the new unsubscribe function leaves it registered once, now last in
    the order of invocation. *)
Theorem unsubscribe_removes_earliest (event : string) (h h0 : Handler)
    (l1 l2 : list Handler) (w : World) :
  handlers_of event w = l1 ++ h0 :: l2 →
  h_id h0 = h_id h →
  (∀ g, g ∈ l1 → h_id g ≠ h_id h) →
  ∃ w', unsubscribe event h (on event h w) = (w', Ok ())
        ∧ handlers_of event w' = l1 ++ l2 ++ [h].
Proof.
  intros Hl E Hnew.
  unfold unsubscribe, on. simpl. rewrite lookup_insert_eq.
  fold (handlers_of event w). rewrite Hl, <- app_assoc. simpl.
  rewrite (list_remove_first h l1 h0 (l2 ++ [h])) by done.
  eexists. split; [ reflexivity | ].
  unfold handlers_of. simpl. by rewrite lookup_insert_eq.
Qed.

(** ** The transport: reconnection and the receive loop *)

Module ReconnectFacts.
Import Transport.
Import TransportFacts.



Lemma delivered_emit_if b e :
  (∀ s, e ≠ CallOnMessage s) → delivered (emit_if b e) = [].
Proof.
  intros H. destruct b; [ | reflexivity ].
  destruct e; try reflexivity. by destruct (H data).
Qed.





Lemma reconnect_fuel_guard b t :
  reconnect_fuel (set_is_reconnecting b t) = reconnect_fuel t.
Proof. reflexivity. Qed.


Lemma receive_frames_delivered raises t pre rest :
  on_message (config t) = true →
  forallb (keeps_receiving raises) pre = true →
  delivered (receive_frames raises t (pre ++ rest))
  = texts pre ++ delivered (receive_frames raises t rest).
Proof.
  intros Hm. induction pre as [ | [data | | | ] pre IH]; simpl; intros H;
    try discriminate; try (by apply IH).
  - done.
  - apply andb_true_iff in H as [Hr H]. apply negb_true_iff in Hr.
    rewrite Hm, Hr. simpl. f_equal. by apply IH.
Qed.

End ReconnectFacts.



(** X28.  The receive loop hands the text frames to [on_message] in the
    order of arrival, none lost and none twice, up to the frame that
    ends the loop: an ERROR or CLOSED frame, or a text frame on which
    the callback raises, which is the last one delivered.  Frames of
    other kinds are skipped, and nothing that follows the ending frame
    is read. *)
Theorem frames_delivered_in_order (raises : string → bool)
    (t : Transport.WebSocketTransport) (pre rest : list Transport.WSMsg)
    (last_frame : Transport.WSMsg) :
  Transport.on_message (Transport.config t) = true →
  forallb (keeps_receiving raises) pre = true →
  keeps_receiving raises last_frame = false →
  delivered (Transport.receive_frames raises t pre) = texts pre
  ∧ delivered (Transport.receive_frames raises t (pre ++ last_frame :: rest))
    = texts (pre ++ [last_frame])
  ∧ Transport.receive_frames raises t (pre ++ last_frame :: rest)
    = Transport.receive_frames raises t (pre ++ [last_frame]).
Proof.
  intros Hm Hpre Hlast.
  assert (∀ tail, Transport.receive_frames raises t (last_frame :: tail)
                  = Transport.receive_frames raises t [last_frame]) as Hstop.
  { intros tail. destruct last_frame as [data | | | ]; simpl in *;
      try discriminate Hlast; try reflexivity.
    apply negb_false_iff in Hlast. by rewrite Hm, Hlast. }
  assert (delivered (Transport.receive_frames raises t [last_frame])
          = texts [last_frame]) as Hone.
  { destruct last_frame as [data | | | ]; simpl in Hlast |- *;
      try discriminate Hlast.
    - apply negb_false_iff in Hlast. rewrite Hm, Hlast. simpl.
      by rewrite ReconnectFacts.delivered_emit_if.
    - by rewrite ReconnectFacts.delivered_emit_if.
    - done. }
  split; [ | split ].
  - rewrite <- (app_nil_r pre) at 1.
    rewrite ReconnectFacts.receive_frames_delivered by done.
    simpl. by rewrite app_nil_r.
  - rewrite ReconnectFacts.receive_frames_delivered by done.
    rewrite Hstop, Hone. unfold texts. by rewrite omap_app.
  - clear Hone. induction pre as [ | [data | | | ] pre IH]; simpl in *;
      try discriminate Hpre.
    + apply Hstop.
    + apply andb_true_iff in Hpre as [Hr Hpre]. apply negb_true_iff in Hr.
      rewrite Hm, Hr. f_equal. by apply IH.
    + by apply IH.
Qed.


(** ** Concrete instances *)

(** X9, witness: a call on a client that never connected. *)
Lemma request_send_failure_cleans_up_witness :
  reachable Example.runtime Example.fresh
  ∧ Transport.send true (_transport (client Example.fresh))
    = Raise (PlainException "WebSocket not connected")
  ∧ (_request "page/list" (JObj []) true Example.fresh).2
    = Raise (Builtin (PlainException "WebSocket not connected"))
  ∧ _pending_requests (client (_request "page/list" (JObj []) true Example.fresh).1)
    = _pending_requests (client Example.fresh).
Proof.
  pose proof (request_send_failure_cleans_up Example.runtime Example.fresh
                "page/list" (JObj []) true
                (PlainException "WebSocket not connected")
                (example_reachable []) eq_refl) as (H1 & H2 & _).
  split; [ apply (example_reachable []) | ]. split; [ reflexivity | ].
  split; [ exact H1 | exact H2 ].
Defined.

(** X10, witness: the initialize request of a handshake, answered with
    the id 1.0 and an ["error"] member that is a string: the call is
    resolved with [None]. *)
Lemma response_resolves_call_witness :
  let d := [("jsonrpc", JStr "2.0"); ("id", JFloat (FFin 1 0));
            ("error", JStr "boom")] in
  reachable Example.runtime handshake_started
  ∧ issued handshake_started !! 0%nat = Some (mkCall 1 "initialize" 0 0 true)
  ∧ is_Some (_pending_requests (client handshake_started) !! 1)
  ∧ dict_get "id" d = Some (JFloat (FFin 1 0))
  ∧ py_num (JFloat (FFin 1 0)) = Some 1
  ∧ is_error_response (JObj d) = Ok false
  ∧ futures (_handle_response Example.runtime (JObj d) handshake_started).1 !! 0%nat
    = Some (FResult JNull).
Proof.
  intros d.
  assert (is_Some (_pending_requests (client handshake_started) !! 1)) as HP
    by (vm_compute; eexists; reflexivity).
  split; [ apply example_reachable | ]. split; [ reflexivity | ].
  split; [ exact HP | ]. split; [ reflexivity | ]. split; [ reflexivity | ].
  split; [ reflexivity | ].
  exact (proj1 (proj2 (response_resolves_call Example.runtime handshake_started
                         0 (mkCall 1 "initialize" 0 0 true) d
                         (JFloat (FFin 1 0))
                         (example_reachable _) eq_refl HP eq_refl eq_refl
                         eq_refl))).
Defined.

(** X11, witness: the initialize request answered with a timeout
    error. *)
Lemma error_response_rejects_call_witness :
  let d := [("jsonrpc", JStr "2.0"); ("id", JInt 1);
            ("error", JObj [("code", JInt ErrorCodes.Timeout);
                            ("message", JStr "late")])] in
  reachable Example.runtime handshake_started
  ∧ issued handshake_started !! 0%nat = Some (mkCall 1 "initialize" 0 0 true)
  ∧ is_Some (_pending_requests (client handshake_started) !! 1)
  ∧ dict_get "id" d = Some (JInt 1)
  ∧ py_num (JInt 1) = Some 1
  ∧ is_error_response (JObj d) = Ok true
  ∧ from_dict Example.format (default JNull (dict_get "error" d))
    = Ok (BAPTimeoutError (JStr "late") JNull)
  ∧ futures (_handle_response Example.runtime (JObj d) handshake_started).1 !! 0%nat
    = Some (FException (BAPTimeoutError (JStr "late") JNull)).
Proof.
  intros d.
  assert (is_Some (_pending_requests (client handshake_started) !! 1)) as HP
    by (vm_compute; eexists; reflexivity).
  split; [ apply example_reachable | ]. split; [ reflexivity | ].
  split; [ exact HP | ]. split; [ reflexivity | ]. split; [ reflexivity | ].
  split; [ reflexivity | ]. split; [ reflexivity | ].
  exact (proj1 (proj2 (error_response_rejects_call Example.runtime
                         handshake_started 0 (mkCall 1 "initialize" 0 0 true) d
                         (JInt 1) (BAPTimeoutError (JStr "late") JNull)
                         (example_reachable _) eq_refl HP eq_refl eq_refl
                         eq_refl eq_refl))).
Defined.

(** X12, witness: a response whose id is a list. *)
Lemma handle_response_exceptions_witness :
  let d := [("jsonrpc", JStr "2.0"); ("id", JList []); ("result", JNull)] in
  (_handle_response Example.runtime (JObj d) Example.fresh).2 = Raise TypeError
  ∧ ((TypeError = TypeError
      ∧ hashable (default JNull (dict_get "id" d)) = false
      ∧ (_handle_response Example.runtime (JObj d) Example.fresh).1 = Example.fresh)
     ∨ (TypeError = AttributeError
        ∧ is_error_response (JObj d) = Ok true
        ∧ is_Some (lookup_pending (default JNull (dict_get "id" d)) Example.fresh))).
Proof.
  intros d. split; [ reflexivity | ].
  exact (handle_response_exceptions Example.runtime d Example.fresh TypeError
           eq_refl).
Defined.

(** X14, witness: a stream-chunk notification without [params]. *)
Lemma notification_exceptions_witness :
  (_handle_notification Example.runtime (JObj bare_chunk_notification)
     Example.fresh).2 = Raise ValidationError
  ∧ (_handle_notification Example.runtime (JObj bare_chunk_notification)
       Example.fresh).1 = Example.fresh.
Proof.
  split; [ reflexivity | ].
  exact (proj1 (notification_exceptions Example.runtime bare_chunk_notification
                  Example.fresh ValidationError eq_refl)).
Defined.


(** X17, witness: a frame that holds the number 42. *)
Lemma non_object_frame_not_dispatched_witness :
  isinstance_dict (JInt 42) = false
  ∧ _handle_message Example.runtime (Some (JInt 42)) Example.fresh
    = (Example.fresh, Raise TypeError).
Proof.
  split; [ reflexivity | ].
  exact (proj1 (non_object_frame_not_dispatched Example.runtime (JInt 42)
                  Example.fresh eq_refl)).
Defined.


(** X20, witness: the handshake of the example session. *)
Lemma connect_completes_handshake_witness :
  let w := run Example.runtime
             [EvConnectBegin true true;
              EvFrame (Some (result_response 1 (initialize_result "0.2.0")))]
             Example.fresh in
  let r := [("protocolVersion", JStr "0.2.0");
            ("serverInfo",
             JObj [("name", JStr "bap-server"); ("version", JStr "1.0.0")]);
            ("capabilities", JObj [])] in
  reachable Example.runtime w
  ∧ Transport.is_connected (_transport (client w)) = true
  ∧ check_version Example.runtime (JObj r) = Ok false
  ∧ ∃ w' call,
      connect_resume Example.runtime (JObj r) true true w = (w', Ok (Some call))
      ∧ _initialized (client w') = true
      ∧ c_method call = "events/subscribe".
Proof.
  intros w r.
  assert (Transport.is_connected (_transport (client w)) = true) as Hc
    by (vm_compute; reflexivity).
  assert (check_version Example.runtime (JObj r) = Ok false) as Hv
    by (vm_compute; reflexivity).
  split; [ apply example_reachable | ]. split; [ exact Hc | ].
  split; [ exact Hv | ].
  destruct (connect_completes_handshake Example.runtime w r false
              (example_reachable _) Hc Hv)
    as (w' & call & H1 & H2 & _ & _ & _ & H3 & _).
  exists w', call. split; [ exact H1 | ]. split; [ exact H2 | exact H3 ].
Defined.


(** X25, witness: a handler registered twice for page events. *)
Lemma unsubscribe_removes_earliest_witness :
  let w := on "page" (quiet_handler 2) (on "page" (quiet_handler 1) Example.fresh) in
  handlers_of "page" w = [] ++ quiet_handler 1 :: [quiet_handler 2]
  ∧ h_id (quiet_handler 1) = h_id (quiet_handler 1)
  ∧ (∀ g, g ∈ ([] : list Handler) → h_id g ≠ h_id (quiet_handler 1))
  ∧ ∃ w', unsubscribe "page" (quiet_handler 1) (on "page" (quiet_handler 1) w)
          = (w', Ok ())
          ∧ handlers_of "page" w'
            = [] ++ [quiet_handler 2] ++ [quiet_handler 1].
Proof.
  intros w.
  assert (handlers_of "page" w = [] ++ quiet_handler 1 :: [quiet_handler 2]) as Hl
    by (vm_compute; reflexivity).
  assert (∀ g, g ∈ ([] : list Handler) → h_id g ≠ h_id (quiet_handler 1)) as Hn
    by (intros g Hg; by apply elem_of_nil in Hg).
  split; [ exact Hl | ]. split; [ reflexivity | ]. split; [ exact Hn | ].
  exact (unsubscribe_removes_earliest "page" (quiet_handler 1) (quiet_handler 1)
           [] [quiet_handler 2] w Hl eq_refl Hn).
Defined.


(** X28, witness: two text frames around a ping, then a close frame. *)
Lemma frames_delivered_in_order_witness :
  let t := connected_transport "ws://localhost:9222" 3 1 false true true true true in
  let pre := [Transport.TEXT "a"; Transport.OTHER; Transport.TEXT "b"] in
  Transport.on_message (Transport.config t) = true
  ∧ forallb (keeps_receiving (λ _, false)) pre = true
  ∧ keeps_receiving (λ _, false) Transport.CLOSED = false
  ∧ delivered (Transport.receive_frames (λ _, false) t
                 (pre ++ Transport.CLOSED :: [Transport.TEXT "c"]))
    = texts (pre ++ [Transport.CLOSED]).
Proof.
  intros t pre. split; [ reflexivity | ]. split; [ reflexivity | ].
  split; [ reflexivity | ].
  exact (proj1 (proj2 (frames_delivered_in_order (λ _, false) t pre
                         [Transport.TEXT "c"] Transport.CLOSED
                         eq_refl eq_refl eq_refl))).
Defined.


